(** * The client engine of python-wayland (src/wayland/client.py)

    A shallow embedding of the connection object [Display] and of the
    bootstrap objects [Registry] and [Callback]: the id allocator, the
    stream decoder, the outbound queue, the dispatch loop, the roundtrip
    barrier and the binding of globals.

    Conventions.
    - Python integers are [Z], byte strings are [list byte], [str] is
      [string], dictionaries are [gmap], Python lists are lists.
    - Python objects live in a heap ([heap], a list indexed by address), so
      that two references to one proxy are one address: the tables of the
      connection hold addresses.
    - A method is a function [Display -> outcome A * Display]: an exception
      leaves the mutations made before it in place, as in Python.
    - Every [while] loop takes a bound on its number of iterations and answers
      [OutOfFuel] when the bound is reached.
    - [print] writes to the standard output, which is not part of the state.
    - [struct.unpack] with the format characters "I" reads native words;
      the model is little-endian. *)

From Stdlib Require Import ZArith List Lia Sorted.
From Stdlib.Strings Require Import Byte.
From stdpp Require Import gmap strings list.

Open Scope Z_scope.

(** ** Bytes and slices *)

Definition bytes := list byte.

Definition len {A} (l : list A) : Z := Z.of_nat (length l).

Definition byte_val (b : byte) : Z := Z.of_N (Byte.to_N b).

Definition byte_of (z : Z) : byte :=
  default x00 (Byte.of_N (Z.to_N (z mod 256))).

(** The unsigned value of a little-endian word. *)
Fixpoint le_uint (l : bytes) : Z :=
  match l with
  | [] => 0
  | b :: r => byte_val b + 256 * le_uint r
  end.

(** [struct.pack] of one unsigned word on [n] bytes. *)
Fixpoint le_bytes (n : nat) (z : Z) : bytes :=
  match n with
  | O => []
  | S n' => byte_of z :: le_bytes n' (z / 256)
  end.

(** [l[a:b]] for [0 <= a] and [0 <= b]. *)
Definition slice {A} (a b : Z) (l : list A) : list A :=
  take (Z.to_nat (b - a)) (drop (Z.to_nat a) l).

(** [l[a:]] for [0 <= a]. *)
Definition slice_from {A} (a : Z) (l : list A) : list A := drop (Z.to_nat a) l.

(** [l[-n:]] for [0 < n]. *)
Definition slice_last {A} (n : Z) (l : list A) : list A :=
  drop (length l - Z.to_nat n)%nat l.

(** [struct.unpack("I", data)]: exactly four bytes, or [struct.error]. *)
Definition unpack_I (data : bytes) : option Z :=
  if decide (length data = 4%nat) then Some (le_uint data) else None.

Definition unpack_II (data : bytes) : option (Z * Z) :=
  if decide (length data = 8%nat)
  then Some (le_uint (take 4 data), le_uint (drop 4 data)) else None.

Definition unpack_III (data : bytes) : option (Z * Z * Z) :=
  if decide (length data = 12%nat)
  then Some (le_uint (take 4 data), le_uint (take 4 (drop 4 data)),
             le_uint (drop 8 data))
  else None.

(** [obj_id, sizeop = struct.unpack("II", data[:8])], [size = sizeop >> 16]
    and [op = sizeop & 0xFFFF], for [len(data) >= 8]. *)
Definition header_id (data : bytes) : Z := le_uint (take 4 data).

Definition header_sizeop (data : bytes) : Z := le_uint (take 4 (drop 4 data)).

Definition header_size (data : bytes) : Z := Z.shiftr (header_sizeop data) 16.

Definition header_op (data : bytes) : Z := Z.land (header_sizeop data) 0xFFFF.

(** ** Exceptions and outcomes *)

Inductive exn :=
| StopIteration
| KeyError
| ValueError
| IndexError
| TypeError
| AttributeError
| StructError
| UnicodeDecodeError
| SystemExit
| OSError (errno : option Z)   (* socket.error and IOError are OSError *)
| InterfaceError (code : nat). (* raised by code of an interface class *)

#[global] Instance exn_eq_dec : EqDecision exn.
Proof. solve_decision. Defined.

Inductive outcome (A : Type) :=
| Ok (a : A)
| Raise (e : exn)
| OutOfFuel.
Arguments Ok {A} a.
Arguments Raise {A} e.
Arguments OutOfFuel {A}.

(** ** Objects *)

Abbreviation addr := nat.

Inductive value :=
| VInt (z : Z)
| VStr (s : string)
| VObj (a : addr)
| VFd (fd : Z)
| VFixed (raw : Z).   (* raw / 256 *)

(** A queued event: target object, event index, arguments. *)
Definition event : Type := addr * Z * list value.

(** The classes.  A class that can be bound as a global carries the value of
    its [interface] attribute. *)
Inductive pyclass :=
| Display_class
| Registry_class
| Callback_class
| Global_class (interface : string) (tag : nat)
| Other_class (tag : nat).

#[global] Instance pyclass_eq_dec : EqDecision pyclass.
Proof. solve_decision. Defined.

Definition class_interface (c : pyclass) : option string :=
  match c with
  | Global_class i _ => Some i
  | _ => None
  end.

(** The attributes of a proxy object.  [global_objects] is the table of a
    [Registry]; [handle_done] is the instance attribute that [roundtrip]
    installs on a [Callback] (the closure cell it sets), [None] when the
    class method is in force. *)
Record proxy := {
  obj_id : Z;
  cls : pyclass;
  global_objects : gmap Z Z;
  handle_done : option nat
}.

Definition new_proxy (c : pyclass) (i : Z) : proxy :=
  {| obj_id := i; cls := c; global_objects := ∅; handle_done := None |}.

(** The value bound to an interface name in [Display.globals]: one proxy
    or a list of them. *)
Inductive global_slot :=
| Single (a : addr)
| Many (l : list addr).

(** ** The socket

    The socket is the environment.  Its state is what the kernel will answer
    to the coming calls ([to_send] for [sendmsg] and [send], [to_recv] for
    [recvmsg]) and what it has accepted so far ([wire]: each accepted segment
    with the descriptors attached to it).  A send accepts at most what it is
    offered.  What the kernel answers once a list is used up is not known:
    the call answers [OutOfFuel]. *)

Inductive send_reply :=
| Accepts (k : nat)
| SendError (errno : Z).

Inductive recv_reply :=
| Delivers (data : bytes) (fds : list Z)
| RecvError (errno : Z).

Record socket := {
  to_send : list send_reply;
  to_recv : list recv_reply;
  wire : list (bytes * list Z);
  closed : bool
}.

(** ** The connection

    The attributes of [Display], with the heap of the proxies and the
    closure cells.  [connected] and [registry] are written by [__init__] and
    read nowhere in the engine; they are left out. *)

Record Display := {
  connection : socket;
  open_ids : list Z;
  ids : Z;                      (* the next value of iter(range(1, 0xffffffff)) *)
  objects : gmap Z addr;
  dead_objects : list Z;
  out_queue : list (bytes * list Z);
  event_queue : list (option event);
  incoming_fds : list Z;
  previous_data : bytes;
  globals : gmap string global_slot;
  global_templates : gmap string pyclass;
  heap : list proxy;
  cells : list bool             (* the [ready] variables of roundtrip calls *)
}.

Definition set_connection (v : socket) (d : Display) : Display :=
  {| connection := v; open_ids := open_ids d; ids := ids d;
     objects := objects d; dead_objects := dead_objects d;
     out_queue := out_queue d; event_queue := event_queue d;
     incoming_fds := incoming_fds d; previous_data := previous_data d;
     globals := globals d; global_templates := global_templates d;
     heap := heap d; cells := cells d |}.

Definition set_open_ids (v : list Z) (d : Display) : Display :=
  {| connection := connection d; open_ids := v; ids := ids d;
     objects := objects d; dead_objects := dead_objects d;
     out_queue := out_queue d; event_queue := event_queue d;
     incoming_fds := incoming_fds d; previous_data := previous_data d;
     globals := globals d; global_templates := global_templates d;
     heap := heap d; cells := cells d |}.

Definition set_ids (v : Z) (d : Display) : Display :=
  {| connection := connection d; open_ids := open_ids d; ids := v;
     objects := objects d; dead_objects := dead_objects d;
     out_queue := out_queue d; event_queue := event_queue d;
     incoming_fds := incoming_fds d; previous_data := previous_data d;
     globals := globals d; global_templates := global_templates d;
     heap := heap d; cells := cells d |}.

Definition set_objects (v : gmap Z addr) (d : Display) : Display :=
  {| connection := connection d; open_ids := open_ids d; ids := ids d;
     objects := v; dead_objects := dead_objects d;
     out_queue := out_queue d; event_queue := event_queue d;
     incoming_fds := incoming_fds d; previous_data := previous_data d;
     globals := globals d; global_templates := global_templates d;
     heap := heap d; cells := cells d |}.

Definition set_dead_objects (v : list Z) (d : Display) : Display :=
  {| connection := connection d; open_ids := open_ids d; ids := ids d;
     objects := objects d; dead_objects := v;
     out_queue := out_queue d; event_queue := event_queue d;
     incoming_fds := incoming_fds d; previous_data := previous_data d;
     globals := globals d; global_templates := global_templates d;
     heap := heap d; cells := cells d |}.

Definition set_out_queue (v : list (bytes * list Z)) (d : Display) : Display :=
  {| connection := connection d; open_ids := open_ids d; ids := ids d;
     objects := objects d; dead_objects := dead_objects d;
     out_queue := v; event_queue := event_queue d;
     incoming_fds := incoming_fds d; previous_data := previous_data d;
     globals := globals d; global_templates := global_templates d;
     heap := heap d; cells := cells d |}.

Definition set_event_queue (v : list (option event)) (d : Display) : Display :=
  {| connection := connection d; open_ids := open_ids d; ids := ids d;
     objects := objects d; dead_objects := dead_objects d;
     out_queue := out_queue d; event_queue := v;
     incoming_fds := incoming_fds d; previous_data := previous_data d;
     globals := globals d; global_templates := global_templates d;
     heap := heap d; cells := cells d |}.

Definition set_incoming_fds (v : list Z) (d : Display) : Display :=
  {| connection := connection d; open_ids := open_ids d; ids := ids d;
     objects := objects d; dead_objects := dead_objects d;
     out_queue := out_queue d; event_queue := event_queue d;
     incoming_fds := v; previous_data := previous_data d;
     globals := globals d; global_templates := global_templates d;
     heap := heap d; cells := cells d |}.

Definition set_previous_data (v : bytes) (d : Display) : Display :=
  {| connection := connection d; open_ids := open_ids d; ids := ids d;
     objects := objects d; dead_objects := dead_objects d;
     out_queue := out_queue d; event_queue := event_queue d;
     incoming_fds := incoming_fds d; previous_data := v;
     globals := globals d; global_templates := global_templates d;
     heap := heap d; cells := cells d |}.

Definition set_globals (v : gmap string global_slot) (d : Display) : Display :=
  {| connection := connection d; open_ids := open_ids d; ids := ids d;
     objects := objects d; dead_objects := dead_objects d;
     out_queue := out_queue d; event_queue := event_queue d;
     incoming_fds := incoming_fds d; previous_data := previous_data d;
     globals := v; global_templates := global_templates d;
     heap := heap d; cells := cells d |}.

Definition set_heap (v : list proxy) (d : Display) : Display :=
  {| connection := connection d; open_ids := open_ids d; ids := ids d;
     objects := objects d; dead_objects := dead_objects d;
     out_queue := out_queue d; event_queue := event_queue d;
     incoming_fds := incoming_fds d; previous_data := previous_data d;
     globals := globals d; global_templates := global_templates d;
     heap := v; cells := cells d |}.

Definition set_cells (v : list bool) (d : Display) : Display :=
  {| connection := connection d; open_ids := open_ids d; ids := ids d;
     objects := objects d; dead_objects := dead_objects d;
     out_queue := out_queue d; event_queue := event_queue d;
     incoming_fds := incoming_fds d; previous_data := previous_data d;
     globals := globals d; global_templates := global_templates d;
     heap := heap d; cells := v |}.

(** ** Methods as state transformers that may raise *)

Definition M (A : Type) : Type := Display -> outcome A * Display.

Definition ret {A} (a : A) : M A := fun d => (Ok a, d).

Definition raise {A} (e : exn) : M A := fun d => (Raise e, d).

Definition bind {A B} (m : M A) (k : A -> M B) : M B :=
  fun d =>
    match m d with
    | (Ok a, d') => k a d'
    | (Raise e, d') => (Raise e, d')
    | (OutOfFuel, d') => (OutOfFuel, d')
    end.

Definition get {A} (f : Display -> A) : M A := fun d => (Ok (f d), d).

Definition modify (f : Display -> Display) : M unit := fun d => (Ok tt, f d).

(** [try: m except: h] *)
Definition try_except {A} (m : M A) (h : exn -> M A) : M A :=
  fun d =>
    match m d with
    | (Raise e, d') => h e d'
    | r => r
    end.

Notation "'let*' x := m 'in' k" := (bind m (fun x => k))
  (at level 10, x name, m at level 100, k at level 200).

(** The object at an address.  The addresses that the tables hold were
    handed out by [alloc]; the lookup of any other answers a blank object. *)
Definition blank : proxy := new_proxy (Other_class 0) 0.

Definition deref (a : addr) : M proxy :=
  get (fun d => default blank (heap d !! a)).

Definition alloc (p : proxy) : M addr :=
  fun d => (Ok (length (heap d)), set_heap (heap d ++ [p]) d).

Definition update (a : addr) (f : proxy -> proxy) : M unit :=
  modify (fun d => set_heap (alter f a (heap d)) d).

(** [l.remove(x)]: the first occurrence, if any. *)
Fixpoint remove_first `{EqDecision A} (x : A) (l : list A) : option (list A) :=
  match l with
  | [] => None
  | y :: r => if decide (x = y) then Some r
              else match remove_first x r with
                   | Some r' => Some (y :: r')
                   | None => None
                   end
  end.

(** ** The socket calls *)

Definition sock_send (data : bytes) (fds : list Z) (s : socket)
  : outcome Z * socket :=
  match to_send s with
  | [] => (OutOfFuel, s)
  | Accepts k :: r =>
      let seg := take k data in
      (Ok (len seg),
       {| to_send := r; to_recv := to_recv s;
          wire := wire s ++ [(seg, fds)]; closed := closed s |})
  | SendError e :: r =>
      (Raise (OSError (Some e)),
       {| to_send := r; to_recv := to_recv s;
          wire := wire s; closed := closed s |})
  end.

(** [recvmsg(1024, CMSG_SPACE(16 * itemsize))]: at most 1024 bytes, the rest
    stays in the kernel; room for 16 descriptors. *)
Definition sock_recv (s : socket) : outcome (bytes * list Z) * socket :=
  match to_recv s with
  | [] => (OutOfFuel, s)
  | Delivers data fds :: r =>
      let later := match drop 1024 data with
                   | [] => r
                   | more => Delivers more [] :: r
                   end in
      (Ok (take 1024 data, take 16 fds),
       {| to_send := to_send s; to_recv := later;
          wire := wire s; closed := closed s |})
  | RecvError e :: r =>
      (Raise (OSError (Some e)),
       {| to_send := to_send s; to_recv := r;
          wire := wire s; closed := closed s |})
  end.

Definition sock_close (s : socket) : socket :=
  {| to_send := to_send s; to_recv := to_recv s;
     wire := wire s; closed := true |}.

Definition on_connection {A} (f : socket -> outcome A * socket) : M A :=
  fun d => let '(o, s) := f (connection d) in (o, set_connection s d).

Definition sendmsg (data : bytes) (fds : list Z) : M Z :=
  on_connection (sock_send data fds).

Definition send (data : bytes) : M Z := on_connection (sock_send data []).

Definition recvmsg : M (bytes * list Z) := on_connection sock_recv.

(** ** The id allocator and the object registry (class Display) *)

(** [Display.next_id].  [ids] is [iter(range(1, 0xffffffff))]. *)
Definition next_id : M Z :=
  fun d =>
    match open_ids d with
    | i :: rest => (Ok i, set_open_ids rest d)
    | [] =>
        if ids d <? 0xffffffff
        then (Ok (ids d), set_ids (ids d + 1) d)
        else (Raise StopIteration, d)
    end.

(** [Display.remove_object] *)
Definition remove_object (obj : Z) : M unit :=
  modify (fun d => set_dead_objects (dead_objects d ++ [obj]) d).

(** [Display.handle_delete_id] *)
Definition handle_delete_id (obj : Z) : M unit :=
  let* live := get (fun d => objects d !! obj) in
  let* _ := (if live is Some _ then remove_object obj else ret tt) in
  let* dead := get dead_objects in
  match remove_first obj dead with
  | None => raise ValueError
  | Some dead' =>
      let* _ := modify (set_dead_objects dead') in
      let* objs := get objects in
      match objs !! obj with
      | None => raise KeyError
      | Some _ => modify (set_objects (delete obj objs))
      end
  end.

(** [Display.disconnect] *)
Definition disconnect : M unit :=
  modify (fun d => set_connection (sock_close (connection d)) d).

(** [Display.handle_error]: the format of the message reads
    [self.objects[object_id]]. *)
Definition handle_error (object_id code : Z) (message : string) : M unit :=
  let* objs := get objects in
  match objs !! object_id with
  | None => raise KeyError
  | Some _ => let* _ := disconnect in raise SystemExit
  end.

Section Engine.

(** [WaylandObject.pack_arguments] is defined in base.py, which is not among
    the sources at hand: the bytes of a request are a parameter.  The
    constructor of [WaylandObject] comes from there too; [new_proxy] is
    what the calls [Class(display, new_id)] need of it. *)
Variable pack_arguments : proxy -> Z -> list value -> bytes.

(** [bytes.decode("utf-8")], [None] when it raises. *)
Variable utf8_decode : bytes -> option string.

(** [Display] defines [remove_object]; [Registry.handle_global_remove] calls
    [self.display.remove_obj], which client.py defines nowhere.  What
    the attribute lookup answers is a parameter. *)
Variable remove_obj : Z -> M unit.

Definition enqueue (self : addr) (op : Z) (args : list value) : M unit :=
  let* p := deref self in
  modify (fun d => set_out_queue (out_queue d ++ [(pack_arguments p op args, [])]) d).

(** [Display.sync] *)
Definition sync (self : addr) : M addr :=
  let* new_id := next_id in
  let* callback := alloc (new_proxy Callback_class new_id) in
  let* _ := modify (fun d => set_objects (<[new_id := callback]> (objects d)) d) in
  let* _ := enqueue self 0 [VInt new_id] in
  ret callback.

(** [Display.get_registry] *)
Definition get_registry (self : addr) : M addr :=
  let* new_id := next_id in
  let* registry := alloc (new_proxy Registry_class new_id) in
  let* _ := modify (fun d => set_objects (<[new_id := registry]> (objects d)) d) in
  let* _ := enqueue self 1 [VInt new_id] in
  ret registry.

(** ** Globals (class Registry) *)

Definition set_global_object (name new_id : Z) (p : proxy) : proxy :=
  {| obj_id := obj_id p; cls := cls p;
     global_objects := <[name := new_id]> (global_objects p);
     handle_done := handle_done p |}.

(** [Registry.handle_global].  [isinstance(globals[interface], template)]
    holds of a proxy of the template's class and of no list; a proxy of
    another class has no [append]. *)
Definition handle_global (self : addr) (name : Z) (interface : string) (version : Z)
  : M unit :=
  let* templates := get global_templates in
  match templates !! interface with
  | Some template =>
      let* new_id := next_id in
      let* _ := enqueue self 0 [VInt name; VStr interface; VInt version; VInt new_id] in
      let* _ := update self (set_global_object name new_id) in
      let* obj := alloc (new_proxy template new_id) in
      let* g := get globals in
      let* _ :=
        match g !! interface with
        | Some (Single a) =>
            let* first := deref a in
            if decide (cls first = template)
            then modify (set_globals (<[interface := Many [a; obj]]> g))
            else raise AttributeError
        | Some (Many l) => modify (set_globals (<[interface := Many (l ++ [obj])]> g))
        | None => modify (set_globals (<[interface := Single obj]> g))
        end in
      modify (fun d => set_objects (<[new_id := obj]> (objects d)) d)
  | None => ret tt
  end.

(** [Registry.handle_global_remove] *)
Definition handle_global_remove (self : addr) (name : Z) : M unit :=
  let* me := deref self in
  match global_objects me !! name with
  | None => ret tt
  | Some id_num =>
      let* objs := get objects in
      match objs !! id_num with
      | None => raise KeyError
      | Some obj =>
          let* o := deref obj in
          match class_interface (cls o) with
          | None => raise AttributeError
          | Some interface =>
              let* g := get globals in
              let* _ :=
                match g !! interface with
                | None => ret tt
                | Some (Single a) =>
                    if decide (a = obj)
                    then modify (set_globals (delete interface g))
                    else raise AttributeError   (* a proxy has no remove *)
                | Some (Many l) =>
                    match remove_first obj l with
                    | None => raise ValueError
                    | Some l' =>
                        match l' with
                        | [a] => modify (set_globals (<[interface := Single a]> g))
                        | _ => modify (set_globals (<[interface := Many l']> g))
                        end
                    end
                end in
              remove_obj id_num
          end
      end
  end.

(** ** Decoding *)

(** What a decoder may touch.  The [unpack_event] methods of client.py
    read [self.display.objects], one of them stores a new proxy in it, and two
    of them pop a descriptor from the list that [decode] passes; they use
    nothing else of the connection. *)
Definition view : Type := gmap Z addr * list proxy * list Z.

(** The decoders of the interface classes. *)
Variable unpack_other : pyclass -> addr -> Z -> bytes -> view -> outcome (option event) * view.

(** The handlers of the interface classes. *)
Variable handle_other : pyclass -> addr -> Z -> list value -> M unit.

Definition with_view {A} (f : view -> outcome A * view) : M A :=
  fun d =>
    let '(o, (objs, hp, fds)) := f (objects d, heap d, incoming_fds d) in
    (o, set_incoming_fds fds (set_heap hp (set_objects objs d))).

(** [Display.unpack_event] *)
Definition Display_unpack_event (self : addr) (op : Z) (data : bytes)
  : M (option event) :=
  if decide (op = 0) then
    match unpack_III (slice 0 12 data) with
    | None => raise StructError
    | Some (object_id, code, length) =>
        match utf8_decode (slice 12 (length + 11) data) with
        | None => raise UnicodeDecodeError
        | Some message =>
            ret (Some (self, op, [VInt object_id; VInt code; VStr message]))
        end
    end
  else if decide (op = 1) then
    match unpack_I data with
    | None => raise StructError
    | Some object_id => ret (Some (self, op, [VInt object_id]))
    end
  else ret None.

(** [Registry.unpack_event] *)
Definition Registry_unpack_event (self : addr) (op : Z) (data : bytes)
  : M (option event) :=
  if decide (op = 0) then
    match unpack_II (slice 0 8 data) with
    | None => raise StructError
    | Some (object_id, length) =>
        match utf8_decode (slice 8 (7 + length) data) with
        | None => raise UnicodeDecodeError
        | Some interface =>
            match unpack_I (slice_last 4 data) with
            | None => raise StructError
            | Some version =>
                ret (Some (self, op, [VInt object_id; VStr interface; VInt version]))
            end
        end
    end
  else if decide (op = 1) then
    match unpack_I data with
    | None => raise StructError
    | Some name => ret (Some (self, op, [VInt name]))
    end
  else ret None.

(** [Callback.unpack_event] *)
Definition Callback_unpack_event (self : addr) (op : Z) (data : bytes)
  : M (option event) :=
  match unpack_I data with
  | None => raise StructError
  | Some callback_data => ret (Some (self, op, [VInt callback_data]))
  end.

(** [obj.unpack_event(op, data, self.incoming_fds)] *)
Definition unpack_event (obj : addr) (op : Z) (data : bytes) : M (option event) :=
  let* o := deref obj in
  match cls o with
  | Display_class => Display_unpack_event obj op data
  | Registry_class => Registry_unpack_event obj op data
  | Callback_class => Callback_unpack_event obj op data
  | c => with_view (unpack_other c obj op data)
  end.

(** The loop of [Display.decode], from the state of one iteration on. *)
Fixpoint decode_loop (fuel : nat) (data : bytes) : M bytes :=
  fun d =>
    if len data <? 8 then (Ok data, d) else
    match fuel with
    | O => (OutOfFuel, d)
    | S fuel' =>
        let obj_id := header_id data in
        let size := header_size data in
        let op := header_op data in
        if len data <? size then (Ok data, d)
        else if decide (obj_id ∈ dead_objects d)
        then decode_loop fuel' (slice_from size data) d
        else
          match objects d !! obj_id with
          | Some obj =>
              match unpack_event obj op (slice 8 size data) d with
              | (Ok ev, d1) =>
                  decode_loop fuel' (slice_from size data)
                    (set_event_queue (event_queue d1 ++ [ev]) d1)
              | (Raise e, d1) => (Raise e, d1)
              | (OutOfFuel, d1) => (OutOfFuel, d1)
              end
          | None => (Raise (OSError None), d)   (* IOError("Error: Bad object ...") *)
          end
    end.

(** [Display.decode] *)
Definition decode (fuel : nat) (data : bytes) : M unit :=
  let* previous := get previous_data in
  let data := if decide (previous = []) then data else previous ++ data in
  let* rest := decode_loop fuel data in
  modify (set_previous_data rest).

(** ** Sending *)

(** [while sent < len(data): sent += self.connection.send(data[sent:])] *)
Fixpoint send_rest (fuel : nat) (data : bytes) (sent : Z) : M unit :=
  fun d =>
    if sent <? len data then
      match fuel with
      | O => (OutOfFuel, d)
      | S fuel' =>
          match send (slice_from sent data) d with
          | (Ok k, d1) => send_rest fuel' data (sent + k) d1
          | (Raise e, d1) => (Raise e, d1)
          | (OutOfFuel, d1) => (OutOfFuel, d1)
          end
      end
    else (Ok tt, d).

(** [Display.flush] *)
Fixpoint flush (fuel : nat) : M unit :=
  fun d =>
    match out_queue d with
    | [] => (Ok tt, d)
    | (data, fds) :: rest =>
        match fuel with
        | O => (OutOfFuel, d)
        | S fuel' =>
            match (let* sent := sendmsg data fds in send_rest fuel' data sent)
                    (set_out_queue rest d) with
            | (Ok _, d1) => flush fuel' d1
            | (Raise e, d1) =>
                if decide (e = OSError (Some 11))
                then (Ok tt, set_out_queue ((data, fds) :: out_queue d1) d1)
                else (Raise e, d1)
            | (OutOfFuel, d1) => (OutOfFuel, d1)
            end
        end
    end.

(** ** Receiving and dispatching *)

(** [Display.recv].  [socket.error] is [OSError], and so is the [IOError]
    that [decode] raises. *)
Definition recv (fuel : nat) : M unit :=
  try_except
    (let* got := recvmsg in
     let* _ := modify (fun d => set_incoming_fds (incoming_fds d ++ got.2) d) in
     if decide (got.1 = []) then ret tt else decode fuel got.1)
    (fun e =>
       match e with
       | OSError errno => if decide (errno = Some 11) then ret tt else raise e
       | _ => raise e
       end).

Definition set_handle_done (h : option nat) (p : proxy) : proxy :=
  {| obj_id := obj_id p; cls := cls p;
     global_objects := global_objects p; handle_done := h |}.

(** The call of [getattr(obj, "handle_" + obj.events[event])] on the
    unpacked arguments.  The arguments of
    the engine's own events are the integers and strings that their decoders
    produce; a call with another shape answers [TypeError]. *)
Definition call_handler (entry : option event) : M unit :=
  match entry with
  | None => raise TypeError
  | Some (obj, event, args) =>
      let* o := deref obj in
      match cls o with
      | Display_class =>           (* events = ['error', 'delete_id'] *)
          if decide (event = 0) then
            match args with
            | [VInt object_id; VInt code; VStr message] =>
                handle_error object_id code message
            | _ => raise TypeError
            end
          else if decide (event = 1) then
            match args with
            | [VInt id] => handle_delete_id id
            | _ => raise TypeError
            end
          else raise IndexError
      | Registry_class =>          (* events = ['global', 'global_remove'] *)
          if decide (event = 0) then
            match args with
            | [VInt name; VStr interface; VInt version] =>
                handle_global obj name interface version
            | _ => raise TypeError
            end
          else if decide (event = 1) then
            match args with
            | [VInt name] => handle_global_remove obj name
            | _ => raise TypeError
            end
          else raise IndexError
      | Callback_class =>          (* events = ['done'] *)
          if decide (event = 0) then
            match args with
            | [_] =>
                match handle_done o with
                | Some ready => modify (fun d => set_cells (<[ready := true]> (cells d)) d)
                | None => ret tt
                end
            | _ => raise TypeError
            end
          else raise IndexError
      | c => handle_other c obj event args
      end
  end.

(** [Display.dispatch_pending] *)
Fixpoint dispatch_pending (fuel : nat) : M unit :=
  fun d =>
    match event_queue d with
    | [] => (Ok tt, d)
    | entry :: rest =>
        match fuel with
        | O => (OutOfFuel, d)
        | S fuel' =>
            (let* _ := call_handler entry in dispatch_pending fuel')
              (set_event_queue rest d)
        end
    end.

(** [while not self.event_queue: self.recv()] *)
Fixpoint recv_events (fuel inner : nat) : M unit :=
  fun d =>
    match event_queue d with
    | _ :: _ => (Ok tt, d)
    | [] =>
        match fuel with
        | O => (OutOfFuel, d)
        | S fuel' => (let* _ := recv inner in recv_events fuel' inner) d
        end
    end.

(** [Display.dispatch] *)
Definition dispatch (fuel : nat) : M unit :=
  let* _ := flush fuel in
  let* _ := recv_events fuel fuel in
  dispatch_pending fuel.

(** ** The roundtrip barrier *)

(** [while not ready: self.dispatch()] *)
Fixpoint roundtrip_loop (fuel inner : nat) (ready : nat) : M unit :=
  fun d =>
    if default false (cells d !! ready) then (Ok tt, d) else
    match fuel with
    | O => (OutOfFuel, d)
    | S fuel' => (let* _ := dispatch inner in roundtrip_loop fuel' inner ready) d
    end.

Definition new_cell : M nat :=
  fun d => (Ok (length (cells d)), set_cells (cells d ++ [false]) d).

(** [Display.roundtrip] *)
Definition roundtrip (fuel : nat) (self : addr) : M unit :=
  let* ready := new_cell in
  let* l := sync self in
  let* _ := update l (set_handle_done (Some ready)) in
  roundtrip_loop fuel fuel ready.

(** ** Connection set-up *)

(** The classes that [Display.__init__] knows as globals. *)
Definition known_globals : list pyclass :=
  [ Global_class "wl_compositor" 0; Global_class "wl_shell" 1;
    Global_class "wl_shm" 2; Global_class "wl_seat" 3;
    Global_class "wl_output" 4; Global_class "wl_subcompositor" 5;
    Global_class "wl_data_device_manager" 6; Global_class "zxdg_shell_v6" 7 ].

(** [{c.interface: c for c in known_globals}] *)
Fixpoint templates_of (classes : list pyclass) (acc : gmap string pyclass)
  : option (gmap string pyclass) :=
  match classes with
  | [] => Some acc
  | c :: r =>
      match class_interface c with
      | Some i => templates_of r (<[i := c]> acc)
      | None => None
      end
  end.

(** The attributes as [Display.__init__] first sets them, on a connected
    socket. *)
Definition Display_new (sock : socket) (templates : gmap string pyclass) : Display :=
  {| connection := sock; open_ids := []; ids := 1;
     objects := ∅; dead_objects := [];
     out_queue := []; event_queue := []; incoming_fds := [];
     previous_data := []; globals := ∅; global_templates := templates;
     heap := []; cells := [] |}.

(** [Display.__init__], from the connected socket on. *)
Definition Display_init (fuel : nat) (sock : socket) (custom_globals : list pyclass)
  : outcome addr * Display :=
  match templates_of (known_globals ++ custom_globals) ∅ with
  | None => (Raise AttributeError, Display_new sock ∅)
  | Some templates =>
      (let* id := next_id in
       let* self := alloc (new_proxy Display_class id) in
       let* _ := modify (set_objects {[id := self]}) in
       let* registry := get_registry self in
       let* _ := dispatch fuel in
       let* _ := roundtrip fuel self in
       ret self) (Display_new sock templates)
  end.

End Engine.

(** ** Concrete collaborators, for the examples *)

Module Sample.

(** A string argument on the wire. *)
Definition pack_string (s : string) : bytes :=
  let body := String.list_byte_of_string s in
  let pad := Z.to_nat ((- len body) mod 4) in
  le_bytes 4 (len body) ++ body ++ replicate pad x00.

Definition pack_value (v : value) : bytes :=
  match v with
  | VInt z => le_bytes 4 z
  | VStr s => pack_string s
  | VObj a => le_bytes 4 (Z.of_nat a)
  | VFd _ => []
  | VFixed raw => le_bytes 4 raw
  end.

(** Modelled from the spec: [WaylandObject.pack_arguments] of base.py, by
    the framing rules of the wire codec: four bytes of object id, four bytes
    with the message size in the upper sixteen bits and the opcode in the
    lower, the arguments in order. *)
Definition pack_arguments (self : proxy) (op : Z) (args : list value) : bytes :=
  let body := concat (map pack_value args) in
  le_bytes 4 (obj_id self) ++ le_bytes 4 (Z.lor (Z.shiftl (8 + len body) 16) op) ++ body.

(** The ASCII part of UTF-8. *)
Definition utf8_decode (b : bytes) : option string :=
  if forallb (fun c => byte_val c <? 128) b
  then Some (String.string_of_list_byte b) else None.

(** The lookup of [remove_obj] on a [Display] as client.py defines the
    class: no such attribute. *)
Definition remove_obj (id : Z) : M unit := raise AttributeError.

(** No interface class beyond the engine's. *)
Definition unpack_other (c : pyclass) (obj : addr) (op : Z) (data : bytes) (v : view)
  : outcome (option event) * view := (Ok None, v).

Definition handle_other (c : pyclass) (obj : addr) (event : Z) (args : list value)
  : M unit := ret tt.

(** An event frame, as the peer writes it. *)
Definition frame (id op : Z) (body : bytes) : bytes :=
  le_bytes 4 id ++ le_bytes 4 (Z.lor (Z.shiftl (8 + len body) 16) op) ++ body.

Definition quiet : socket :=
  {| to_send := []; to_recv := []; wire := []; closed := false |}.

(** A connection whose root object (id 1, address 0) is registered. *)
Definition fresh (templates : gmap string pyclass) : Display :=
  {| connection := quiet; open_ids := []; ids := 2;
     objects := {[1 := 0%nat]}; dead_objects := [];
     out_queue := []; event_queue := []; incoming_fds := [];
     previous_data := []; globals := ∅; global_templates := templates;
     heap := [new_proxy Display_class 1]; cells := [] |}.

End Sample.

(** * The vocabulary of the properties *)

(** ** Runs of the allocator and of the registry *)

(** The ids that [n] successive calls of [next_id] return. *)
Fixpoint issued (n : nat) (d : Display) : list Z :=
  match n with
  | O => []
  | S n' =>
      match next_id d with
      | (Ok i, d') => i :: issued n' d'
      | (_, d') => issued n' d'
      end
  end.

(** What [n] successive calls of [next_id] answer, one outcome for each
    call, and the state that they leave. *)
Fixpoint next_id_calls (n : nat) (d : Display) : list (outcome Z) * Display :=
  match n with
  | O => ([], d)
  | S n' =>
      let '(o, d1) := next_id d in
      let '(os, d2) := next_id_calls n' d1 in
      (o :: os, d2)
  end.

(** A connection with one more object, id 2, whose deletion the client has
    requested ([remove_object 2]) and the server not yet acknowledged. *)
Definition pending_delete : Display :=
  {| connection := Sample.quiet; open_ids := []; ids := 3;
     objects := {[1 := 0%nat; 2 := 1%nat]}; dead_objects := [2];
     out_queue := []; event_queue := []; incoming_fds := [];
     previous_data := []; globals := ∅; global_templates := ∅;
     heap := [new_proxy Display_class 1; new_proxy (Other_class 0) 2];
     cells := [] |}.

(** The class [Compositor]. *)
Definition compositor : pyclass := Global_class "wl_compositor" 0.

(** The registry is requested; the server announces the interface
    wl_compositor under the names 10 and 11, then removes the name 10. *)
Definition two_globals_then_remove
    (pack_arguments : proxy -> Z -> list value -> bytes)
    (remove_obj : Z -> M unit) : outcome unit * Display :=
  (let* registry := get_registry pack_arguments 0%nat in
   let* _ := handle_global pack_arguments registry 10 "wl_compositor" 4 in
   let* _ := handle_global pack_arguments registry 11 "wl_compositor" 4 in
   handle_global_remove remove_obj registry 10)
    (Sample.fresh {["wl_compositor" := compositor]}).

(** ** Iterations of the decoder *)

Section Iteration.

Variable utf8_decode : bytes -> option string.
Variable unpack_other : pyclass -> addr -> Z -> bytes -> view -> outcome (option event) * view.

Local Abbreviation decode := (decode utf8_decode unpack_other).
Local Abbreviation unpack_event := (unpack_event utf8_decode unpack_other).

(** Feeding the decoder one chunk per call. *)
Fixpoint decode_chunks (fuel : nat) (chunks : list bytes) : M unit :=
  match chunks with
  | [] => ret tt
  | chunk :: later => let* _ := decode fuel chunk in decode_chunks fuel later
  end.

(** One iteration of the loop of [decode]: stop, go on, or fail. *)
Inductive step :=
| Stop
| Next (data : bytes) (d : Display)
| Fail (o : outcome bytes) (d : Display).

Definition decode_step (data : bytes) (d : Display) : step :=
  if len data <? 8 then Stop
  else if len data <? header_size data then Stop
  else if decide (header_id data ∈ dead_objects d)
  then Next (slice_from (header_size data) data) d
  else
    match objects d !! header_id data with
    | Some obj =>
        match unpack_event obj (header_op data) (slice 8 (header_size data) data) d with
        | (Ok ev, d1) =>
            Next (slice_from (header_size data) data)
              (set_event_queue (event_queue d1 ++ [ev]) d1)
        | (Raise e, d1) => Fail (Raise e) d1
        | (OutOfFuel, d1) => Fail OutOfFuel d1
        end
    | None => Fail (Raise (OSError None)) d
    end.

End Iteration.

(** ** Byte streams, and what the wire gets *)

(** Two frames for the root object. *)
Definition two_frames : bytes :=
  Sample.frame 1 1 (le_bytes 4 5) ++ Sample.frame 1 1 (le_bytes 4 6).

(** A frame for the fenced id 2, then a frame for the root object. *)
Definition after_delete : bytes :=
  Sample.frame 2 0 (le_bytes 4 7) ++ Sample.frame 1 1 (le_bytes 4 2).

(** A frame for the id 9, which no table knows. *)
Definition stray : bytes := Sample.frame 9 0 (le_bytes 4 7).

(** The header of a frame of twelve bytes, of which eleven have arrived. *)
Definition truncated : bytes := take 11 (Sample.frame 1 1 (le_bytes 4 5)).

(** The bytes of a run of segments. *)
Definition payload (segs : list (bytes * list Z)) : bytes := concat (map fst segs).

(** What the wire got of one queue entry: segments whose payloads make up
    a prefix of the entry's bytes, the first of them with the entry's
    descriptors and the others with none. *)
Definition segments_of (entry : bytes * list Z) (segs : list (bytes * list Z)) : Prop :=
  payload segs `prefix_of` entry.1
  /\ match segs with
     | [] => True
     | first :: more => first.2 = entry.2 /\ Forall (fun s => s.2 = []) more
     end.

(** The wire got all of the entry. *)
Definition transmits (entry : bytes * list Z) (segs : list (bytes * list Z)) : Prop :=
  segs <> [] /\ segments_of entry segs /\ payload segs = entry.1.

(** The wire got all of the entries, one after the other. *)
Inductive transmits_all : list (bytes * list Z) -> list (bytes * list Z) -> Prop :=
| transmits_none : transmits_all [] []
| transmits_next entry entries segs segs' :
    transmits entry segs -> transmits_all entries segs' ->
    transmits_all (entry :: entries) (segs ++ segs').

(** The socket took bytes. *)
Definition accepted (r : send_reply) : Prop := exists k, r = Accepts k.

(** What a run of the loop that sends the rest of an entry does: [segs]
    goes to the wire, [used] are the replies of the socket. *)
Definition sends_rest (data : bytes) (sent : Z) (d : Display)
    (o : outcome unit) (d1 : Display) : Prop :=
  exists segs used,
    d1 = set_connection (connection d1) d
    /\ wire (connection d1) = wire (connection d) ++ segs
    /\ to_send (connection d) = used ++ to_send (connection d1)
    /\ Forall (fun s => s.2 = []) segs
    /\ payload segs `prefix_of` slice_from sent data
    /\ match o with
       | Ok _ => payload segs = slice_from sent data /\ Forall accepted used
       | Raise e =>
           exists errno acc,
             e = OSError (Some errno) /\ used = acc ++ [SendError errno]
             /\ Forall accepted acc
       | OutOfFuel => True
       end.

(** What the attempt on one entry does ([sendmsg], then the loop). *)
Definition sends_entry (entry : bytes * list Z) (d : Display)
    (o : outcome unit) (d1 : Display) : Prop :=
  exists segs used,
    d1 = set_connection (connection d1) d
    /\ wire (connection d1) = wire (connection d) ++ segs
    /\ to_send (connection d) = used ++ to_send (connection d1)
    /\ segments_of entry segs
    /\ match o with
       | Ok _ => transmits entry segs /\ Forall accepted used
       | Raise e =>
           exists errno acc,
             e = OSError (Some errno) /\ used = acc ++ [SendError errno]
             /\ Forall accepted acc
       | OutOfFuel => True
       end.

(** What a call of [flush] does: the entries [done] went to the wire whole
    and in order; of the entry after them, if there is one, the wire may
    have got a part. *)
Definition flushes (d : Display) (o : outcome unit) (d' : Display) : Prop :=
  exists done pending segs_done segs_head used,
    out_queue d = done ++ pending
    /\ wire (connection d') = wire (connection d) ++ segs_done ++ segs_head
    /\ to_send (connection d) = used ++ to_send (connection d')
    /\ transmits_all done segs_done
    /\ match o with
       | Ok _ =>
           out_queue d' = pending
           /\ ((pending = [] /\ segs_head = [] /\ Forall accepted used)
               \/ exists A rest acc,
                    pending = A :: rest /\ segments_of A segs_head
                    /\ used = acc ++ [SendError 11] /\ Forall accepted acc)
       | Raise e =>
           exists A rest,
             pending = A :: rest /\ out_queue d' = rest /\ segments_of A segs_head
       | OutOfFuel =>
           segs_head = []
           \/ exists A rest, pending = A :: rest /\ segments_of A segs_head
       end.

(** A queue of two entries on a socket that takes three bytes and then
    would block. *)
Definition congested : Display :=
  {| connection :=
       {| to_send := [Accepts 3; SendError 11; Accepts 8];
          to_recv := []; wire := []; closed := false |};
     open_ids := []; ids := 2;
     objects := {[1 := 0%nat]}; dead_objects := [];
     out_queue := [(Sample.frame 1 0 (le_bytes 4 2), [7]);
                   (Sample.frame 1 1 (le_bytes 4 3), [])];
     event_queue := []; incoming_fds := [];
     previous_data := []; globals := ∅; global_templates := ∅;
     heap := [new_proxy Display_class 1]; cells := [] |}.

(** The done event of a callback on the wire: the id of the callback, the
    size 12 and the opcode 0, four bytes of callback data. *)
Definition done_frame (id : Z) (callback_data : bytes) : bytes :=
  le_bytes 4 id ++ le_bytes 4 (Z.shiftl 12 16) ++ callback_data.

(** The replies of the socket through which a frame arrives: would-block
    errors and chunks of the frame, up to the chunk that completes it.  [got]
    is what has arrived before. *)
Inductive completes (frame : bytes) : bytes -> list recv_reply -> Prop :=
| completes_last got chunk fds :
    chunk <> [] -> got ++ chunk = frame ->
    completes frame got [Delivers chunk fds]
| completes_block got replies :
    completes frame got replies ->
    completes frame got (RecvError 11 :: replies)
| completes_part got chunk fds replies :
    completes frame (got ++ chunk) replies ->
    completes frame got (Delivers chunk fds :: replies).

(** ** The start of a roundtrip *)

Section Setup.

Variable pack_arguments : proxy -> Z -> list value -> bytes.

(** The statements of [roundtrip] before its loop: the variable [ready],
    the sync request, the handler on the callback. *)
Definition roundtrip_setup (self : addr) : M nat :=
  let* ready := new_cell in
  let* l := sync pack_arguments self in
  let* _ := update l (set_handle_done (Some ready)) in
  ret ready.

End Setup.

(** A new connection whose socket takes twelve bytes, would block once on
    receive, and then delivers the done frame of the callback 2 in two
    chunks. *)
Definition answering : Display :=
  set_connection
    {| to_send := [Accepts 12];
       to_recv := [RecvError 11;
                   Delivers (take 5 (done_frame 2 (le_bytes 4 99))) [];
                   Delivers (drop 5 (done_frame 2 (le_bytes 4 99))) []];
       wire := []; closed := false |}
    (Sample.fresh ∅).

(** A connection with a deletion pending (the object 2), whose socket takes
    twelve bytes and delivers the acknowledgment of the deletion in one
    read and the done frame of the callback 3 in the next. *)
Definition interleaved : Display :=
  set_connection
    {| to_send := [Accepts 12];
       to_recv := [Delivers (Sample.frame 1 1 (le_bytes 4 2)) [];
                   Delivers (done_frame 3 (le_bytes 4 99)) []];
       wire := []; closed := false |}
    pending_delete.

(** * Requests of the interface classes

    The request methods of the interface classes follow two patterns: a
    request that creates an object draws an id, registers a proxy and queues
    the request; [destroy] queues the request and fences the id. *)

(** The classes [Region] and [ShmPool]; neither defines [__init__]. *)
Definition Region_class : pyclass := Other_class 1.

Definition ShmPool_class : pyclass := Other_class 2.

Section Requests.

Variable pack_arguments : proxy -> Z -> list value -> bytes.

(** The queueing of a request with descriptors. *)
Definition enqueue_with (self : addr) (op : Z) (args : list value) (fds : list Z)
  : M unit :=
  let* p := deref self in
  modify (fun d => set_out_queue (out_queue d ++ [(pack_arguments p op args, fds)]) d).

(** [Compositor.create_region] *)
Definition Compositor_create_region (self : addr) : M addr :=
  let* new_id := next_id in
  let* region := alloc (new_proxy Region_class new_id) in
  let* _ := modify (fun d => set_objects (<[new_id := region]> (objects d)) d) in
  let* _ := enqueue pack_arguments self 1 [VInt new_id] in
  ret region.

(** [Region.destroy] *)
Definition Region_destroy (self : addr) : M unit :=
  let* _ := enqueue pack_arguments self 0 [] in
  let* p := deref self in
  remove_object (obj_id p).

(** [Shm.create_pool] *)
Definition Shm_create_pool (self : addr) (fd size : Z) : M addr :=
  let* new_id := next_id in
  let* shm_pool := alloc (new_proxy ShmPool_class new_id) in
  let* _ := modify (fun d => set_objects (<[new_id := shm_pool]> (objects d)) d) in
  let* _ := enqueue_with self 0 [VInt new_id; VInt size] [fd] in
  ret shm_pool.

(** [ShmPool.destroy] *)
Definition ShmPool_destroy (self : addr) : M unit :=
  let* _ := enqueue pack_arguments self 1 [] in
  let* p := deref self in
  remove_object (obj_id p).

(** [Surface.frame] *)
Definition Surface_frame (self : addr) : M addr :=
  let* new_id := next_id in
  let* callback := alloc (new_proxy Callback_class new_id) in
  let* _ := modify (fun d => set_objects (<[new_id := callback]> (objects d)) d) in
  let* _ := enqueue pack_arguments self 3 [VInt new_id] in
  ret callback.

End Requests.

(** * More vocabulary *)

(** Every id of the object table has been drawn from the counter, and no
    id waits on the free list. *)
Definition fresh_ids (d : Display) : Prop :=
  open_ids d = [] /\ forall id a, objects d !! id = Some a -> id < ids d.

(** The payload of a global event of the registry: the name, the length of
    the interface string with its terminating zero, the string, the zero and
    its padding, the version. *)
Definition global_payload (name : Z) (interface padding : bytes) (version : Z) : bytes :=
  le_bytes 4 name ++ le_bytes 4 (len interface + 1) ++ interface
  ++ x00 :: padding ++ le_bytes 4 version.

(** The payload of an error event of the display: the object, the code, the
    length of the message with its terminating zero, the message, the zero
    and its padding. *)
Definition error_payload (object_id code : Z) (message padding : bytes) : bytes :=
  le_bytes 4 object_id ++ le_bytes 4 code ++ le_bytes 4 (len message + 1)
  ++ message ++ x00 :: padding.

(** The calls through which a client drives the registry. *)
Inductive operation :=
| Op_next_id
| Op_sync (self : addr)
| Op_get_registry (self : addr)
| Op_create_region (self : addr)
| Op_create_pool (self : addr) (fd size : Z)
| Op_frame (self : addr)
| Op_region_destroy (self : addr)
| Op_pool_destroy (self : addr)
| Op_remove_object (id : Z)
| Op_delete_id (id : Z)
| Op_global (self : addr) (name : Z) (interface : string) (version : Z)
| Op_flush (fuel : nat).

Section Operations.

Variable pack_arguments : proxy -> Z -> list value -> bytes.

(** The state that a call leaves, whether it returns or raises. *)
Definition perform (d : Display) (op : operation) : Display :=
  match op with
  | Op_next_id => (next_id d).2
  | Op_sync self => (sync pack_arguments self d).2
  | Op_get_registry self => (get_registry pack_arguments self d).2
  | Op_create_region self => (Compositor_create_region pack_arguments self d).2
  | Op_create_pool self fd size => (Shm_create_pool pack_arguments self fd size d).2
  | Op_frame self => (Surface_frame pack_arguments self d).2
  | Op_region_destroy self => (Region_destroy pack_arguments self d).2
  | Op_pool_destroy self => (ShmPool_destroy pack_arguments self d).2
  | Op_remove_object id => (remove_object id d).2
  | Op_delete_id id => (handle_delete_id id d).2
  | Op_global self name interface version =>
      (handle_global pack_arguments self name interface version d).2
  | Op_flush fuel => (flush fuel d).2
  end.

(** The requests that create an object, on the object [self]. *)
Definition creators (self : addr) (fd size : Z) : list (M addr) :=
  [ sync pack_arguments self; get_registry pack_arguments self;
    Compositor_create_region pack_arguments self;
    Shm_create_pool pack_arguments self fd size;
    Surface_frame pack_arguments self ].

End Operations.

(** The entry of an interface in [Display.globals] once one more proxy
    of the interface has been bound. *)
Definition announced (slot : option global_slot) (obj : addr) : global_slot :=
  match slot with
  | None => Single obj
  | Some (Single a) => Many [a; obj]
  | Some (Many l) => Many (l ++ [obj])
  end.

(** * Properties *)

(** ** The id allocator *)

Lemma next_id_counter (d : Display) :
  open_ids d = [] -> ids d < 0xffffffff ->
  next_id d = (Ok (ids d), set_ids (ids d + 1) d).
Proof.
  intros Hfree Hlt. unfold next_id. rewrite Hfree.
  destruct (Z.ltb_spec (ids d) 0xffffffff); [reflexivity | lia].
Qed.

Lemma next_id_exhausted (d : Display) :
  open_ids d = [] -> 0xffffffff <= ids d ->
  next_id d = (Raise StopIteration, d).
Proof.
  intros Hfree Hge. unfold next_id. rewrite Hfree.
  destruct (Z.ltb_spec (ids d) 0xffffffff); [lia | reflexivity].
Qed.

Lemma issued_above (n : nat) : forall d,
  open_ids d = [] ->
  StronglySorted Z.lt (issued n d) /\ Forall (fun i => ids d <= i) (issued n d).
Proof.
  induction n as [|n IH]; intros d Hfree; simpl.
  - split; constructor.
  - destruct (Z.lt_ge_cases (ids d) 0xffffffff) as [Hlt | Hge].
    + rewrite next_id_counter by assumption.
      destruct (IH (set_ids (ids d + 1) d) Hfree) as [Hs Hf]. simpl in Hf.
      split.
      * constructor; [exact Hs |].
        eapply Forall_impl; [exact Hf |]. simpl. intros; lia.
      * constructor; [lia |].
        eapply Forall_impl; [exact Hf |]. simpl. intros; lia.
    + rewrite next_id_exhausted by assumption. apply IH, Hfree.
Qed.

(** C7: with an empty free list, successive calls of [next_id] return
    strictly increasing ids, never 0, and on a new connection (the counter
    at its start) the first id is 1. *)
Theorem next_id_strictly_increasing (n : nat) (d : Display) :
  open_ids d = [] -> 1 <= ids d ->
  StronglySorted Z.lt (issued n d)
  /\ (0 ∉ issued n d)
  /\ (ids d = 1 -> (0 < n)%nat -> head (issued n d) = Some 1).
Proof.
  intros Hfree Hpos. destruct (issued_above n d Hfree) as [Hs Hf].
  split; [exact Hs |]. split.
  - intros Hin. rewrite Forall_forall in Hf. specialize (Hf 0 Hin). lia.
  - intros Hone Hn. destruct n as [|n]; [lia |]. simpl.
    rewrite next_id_counter by (assumption || lia). simpl. congruence.
Qed.

Lemma next_id_strictly_increasing_witness :
  let d := Display_new Sample.quiet ∅ in
  StronglySorted Z.lt (issued 3 d) /\ (0 ∉ issued 3 d)
  /\ (ids d = 1 -> (0 < 3)%nat -> head (issued 3 d) = Some 1).
Proof.
  apply (next_id_strictly_increasing 3 (Display_new Sample.quiet ∅)).
  - reflexivity.
  - simpl. lia.
Defined.

(** The root object of a new connection has id 1. *)
Lemma root_object_id (sock : socket) (templates : gmap string pyclass) :
  next_id (Display_new sock templates)
  = (Ok 1, set_ids 2 (Display_new sock templates)).
Proof. reflexivity. Qed.

(** ** Acknowledged deletion *)

(** Whatever it does, [handle_delete_id] leaves the allocator alone. *)
Lemma handle_delete_id_allocator (obj : Z) (d : Display) :
  open_ids (handle_delete_id obj d).2 = open_ids d
  /\ ids (handle_delete_id obj d).2 = ids d.
Proof.
  unfold handle_delete_id, bind, get, modify, remove_object, raise, ret.
  destruct (objects d !! obj) as [a|] eqn:Hlive; simpl.
  - destruct (remove_first obj (dead_objects d ++ [obj])); simpl.
    + rewrite Hlive. simpl. auto.
    + auto.
  - destruct (remove_first obj (dead_objects d)); simpl.
    + rewrite Hlive. simpl. auto.
    + auto.
Qed.

(** C1, at [pending_delete]: the acknowledgment of id 2 returns normally,
    takes 2 out of the object table, leaves the free list empty and 2 in
    the dead list; the next id issued is 3, and neither of the two calls
    after it returns 2. *)
Theorem handle_delete_id_no_reuse :
  let r := handle_delete_id 2 pending_delete in
  r.1 = Ok tt
  /\ objects r.2 !! 2 = None
  /\ open_ids r.2 = []
  /\ dead_objects r.2 = [2]
  /\ issued 3 r.2 = [3; 4; 5].
Proof. vm_compute. repeat split. Qed.

(** ** Globals *)

(** C10: a global of an interface that is not in the template table changes
    nothing: no id is issued, no proxy is recorded, no request is queued. *)
Theorem handle_global_unknown_interface
    (pack_arguments : proxy -> Z -> list value -> bytes)
    (self : addr) (name : Z) (interface : string) (version : Z) (d : Display) :
  global_templates d !! interface = None ->
  handle_global pack_arguments self name interface version d = (Ok tt, d).
Proof.
  intros Hnone. unfold handle_global, bind, get. rewrite Hnone. reflexivity.
Qed.

Lemma handle_global_unknown_interface_witness :
  handle_global Sample.pack_arguments 1%nat 10 "wl_unknown" 4 (Sample.fresh ∅)
  = (Ok tt, Sample.fresh ∅).
Proof.
  apply (handle_global_unknown_interface Sample.pack_arguments 1%nat 10
           "wl_unknown" 4 (Sample.fresh ∅)).
  reflexivity.
Defined.

(** C8, at [two_globals_then_remove]: the removal collapses the entry of the
    interface to the second proxy (address 3) and queues nothing beyond the
    three requests made before it; it ends in the call of [remove_obj] on
    the id 3 of the first proxy.  As client.py defines [Display], that call
    raises AttributeError and the id stays in the object table; with
    [remove_object] in its place the id would be fenced, and stay in the
    table too. *)
Theorem global_remove_of_first_of_two
    (pack_arguments : proxy -> Z -> list value -> bytes) :
  let before := (two_globals_then_remove pack_arguments (fun _ => ret tt)).2 in
  (forall remove_obj,
     two_globals_then_remove pack_arguments remove_obj = remove_obj 3 before)
  /\ globals before !! "wl_compositor" = Some (Single 3%nat)
  /\ objects before !! 3 = Some 2%nat
  /\ objects before !! 4 = Some 3%nat
  /\ length (out_queue before) = 3%nat
  /\ (two_globals_then_remove pack_arguments Sample.remove_obj).1
     = Raise AttributeError
  /\ (let r := two_globals_then_remove pack_arguments remove_object in
      r.1 = Ok tt /\ objects r.2 !! 3 = Some 2%nat /\ dead_objects r.2 = [3]).
Proof.
  cbv zeta.
  split; [intros remove_obj; vm_compute; reflexivity |].
  do 5 (split; [vm_compute; reflexivity |]).
  split; [vm_compute; reflexivity |].
  split; vm_compute; reflexivity.
Qed.

(** ** Decoding *)

Section Decoding.

Variable utf8_decode : bytes -> option string.
Variable unpack_other : pyclass -> addr -> Z -> bytes -> view -> outcome (option event) * view.

Local Abbreviation decode_loop := (decode_loop utf8_decode unpack_other).
Local Abbreviation decode := (decode utf8_decode unpack_other).
Local Abbreviation unpack_event := (unpack_event utf8_decode unpack_other).
Local Abbreviation recv := (recv utf8_decode unpack_other).
Local Abbreviation decode_chunks := (decode_chunks utf8_decode unpack_other).
Local Abbreviation decode_step := (decode_step utf8_decode unpack_other).

(** The buffer that a call of [decode] works on. *)
Lemma decode_buffer (fuel : nat) (chunk : bytes) (d : Display) :
  decode fuel chunk d
  = (let* rest := decode_loop fuel (previous_data d ++ chunk) in
     modify (set_previous_data rest)) d.
Proof.
  unfold decode, bind, get. destruct (decide (previous_data d = [])) as [-> | _];
    reflexivity.
Qed.

(** One iteration of the loop, by cases. *)
Lemma decode_loop_short (fuel : nat) (data : bytes) (d : Display) :
  len data < 8 -> decode_loop fuel data d = (Ok data, d).
Proof.
  intros H. destruct fuel; simpl;
    destruct (Z.ltb_spec (len data) 8); try lia; reflexivity.
Qed.

Lemma decode_loop_incomplete (fuel : nat) (data : bytes) (d : Display) :
  8 <= len data -> len data < header_size data ->
  decode_loop (S fuel) data d = (Ok data, d).
Proof.
  intros H8 Hsize. simpl.
  destruct (Z.ltb_spec (len data) 8); [lia |].
  destruct (Z.ltb_spec (len data) (header_size data)); [reflexivity | lia].
Qed.

Lemma decode_loop_dead (fuel : nat) (data : bytes) (d : Display) :
  8 <= len data -> header_size data <= len data ->
  header_id data ∈ dead_objects d ->
  decode_loop (S fuel) data d
  = decode_loop fuel (slice_from (header_size data) data) d.
Proof.
  intros H8 Hsize Hdead. simpl.
  destruct (Z.ltb_spec (len data) 8); [lia |].
  destruct (Z.ltb_spec (len data) (header_size data)); [lia |].
  destruct (decide (header_id data ∈ dead_objects d)); [reflexivity | contradiction].
Qed.

Lemma decode_loop_live (fuel : nat) (data : bytes) (d : Display) (obj : addr) :
  8 <= len data -> header_size data <= len data ->
  header_id data ∉ dead_objects d ->
  objects d !! header_id data = Some obj ->
  decode_loop (S fuel) data d
  = match unpack_event obj (header_op data) (slice 8 (header_size data) data) d with
    | (Ok ev, d1) =>
        decode_loop fuel (slice_from (header_size data) data)
          (set_event_queue (event_queue d1 ++ [ev]) d1)
    | (Raise e, d1) => (Raise e, d1)
    | (OutOfFuel, d1) => (OutOfFuel, d1)
    end.
Proof.
  intros H8 Hsize Hdead Hlive. simpl.
  destruct (Z.ltb_spec (len data) 8); [lia |].
  destruct (Z.ltb_spec (len data) (header_size data)); [lia |].
  destruct (decide (header_id data ∈ dead_objects d)); [contradiction |].
  rewrite Hlive. reflexivity.
Qed.

Lemma decode_loop_unknown (fuel : nat) (data : bytes) (d : Display) :
  8 <= len data -> header_size data <= len data ->
  header_id data ∉ dead_objects d ->
  objects d !! header_id data = None ->
  decode_loop (S fuel) data d = (Raise (OSError None), d).
Proof.
  intros H8 Hsize Hdead Hnone. simpl.
  destruct (Z.ltb_spec (len data) 8); [lia |].
  destruct (Z.ltb_spec (len data) (header_size data)); [lia |].
  destruct (decide (header_id data ∈ dead_objects d)); [contradiction |].
  rewrite Hnone. reflexivity.
Qed.

(** C6: when the header at the front of the buffer declares more bytes than
    the buffer holds, [decode] queues no event and keeps the whole buffer. *)
Theorem decode_incomplete_frame (fuel : nat) (chunk : bytes) (d : Display) :
  8 <= len (previous_data d ++ chunk) ->
  len (previous_data d ++ chunk) < header_size (previous_data d ++ chunk) ->
  decode (S fuel) chunk d
  = (Ok tt, set_previous_data (previous_data d ++ chunk) d).
Proof.
  intros H8 Hsize. rewrite decode_buffer. unfold bind.
  rewrite decode_loop_incomplete by assumption. reflexivity.
Qed.

Lemma le_uint_nonneg (l : bytes) : 0 <= le_uint l.
Proof.
  induction l as [|b l IH]; simpl; [lia |].
  assert (0 <= byte_val b) by (unfold byte_val; lia). lia.
Qed.

Lemma header_size_nonneg (data : bytes) : 0 <= header_size data.
Proof. unfold header_size. apply Z.shiftr_nonneg, le_uint_nonneg. Qed.

Lemma len_slice_from (n : Z) (data : bytes) :
  0 <= n <= len data -> len (slice_from n data) = len data - n.
Proof.
  intros H. unfold slice_from, len in *. rewrite length_drop. lia.
Qed.


(** What [recv] does when the socket delivers a chunk. *)
Lemma recv_delivers (fuel : nat) (d : Display)
    (chunk : bytes) (fds : list Z) (later : list recv_reply) :
  to_recv (connection d) = Delivers chunk fds :: later ->
  chunk <> [] -> len chunk <= 1024 ->
  exists s,
    to_recv s = later
    /\ recv fuel d
    = try_except (decode fuel chunk)
        (fun e => match e with
                  | OSError errno =>
                      if decide (errno = Some 11) then ret tt else raise e
                  | _ => raise e
                  end)
        (set_incoming_fds (incoming_fds d ++ take 16 fds) (set_connection s d)).
Proof.
  intros Hrecv Hne Hlen.
  assert (Htake : take 1024 chunk = chunk).
  { apply take_ge. unfold len in Hlen. lia. }
  assert (Hdrop : drop 1024 chunk = []).
  { apply drop_ge. unfold len in Hlen. lia. }
  eexists. split; [| unfold recv, try_except, bind, recvmsg, on_connection, sock_recv, modify;
    rewrite Hrecv; simpl; rewrite Htake, Hdrop;
    destruct (decide (chunk = [])); [contradiction | reflexivity]].
  reflexivity.
Qed.

(** C5: a complete frame for an id that is neither in the dead list nor in
    the object table makes the loop raise the IOError; [decode] raises it,
    and [recv], which catches socket errors, raises it again. *)
Theorem unknown_object_is_fatal (fuel : nat) (data : bytes) (d : Display) :
  8 <= len data -> header_size data <= len data ->
  header_id data ∉ dead_objects d ->
  objects d !! header_id data = None ->
  decode_loop (S fuel) data d = (Raise (OSError None), d)
  /\ (forall chunk, previous_data d ++ chunk = data ->
        decode (S fuel) chunk d = (Raise (OSError None), d))
  /\ (forall chunk fds later,
        previous_data d ++ chunk = data ->
        to_recv (connection d) = Delivers chunk fds :: later ->
        chunk <> [] -> len chunk <= 1024 ->
        (recv (S fuel) d).1 = Raise (OSError None)).
Proof.
  intros H8 Hsize Hdead Hnone.
  assert (Hdec : forall d' chunk,
            previous_data d' = previous_data d ->
            dead_objects d' = dead_objects d -> objects d' = objects d ->
            previous_data d ++ chunk = data ->
            decode (S fuel) chunk d' = (Raise (OSError None), d')).
  { intros d' chunk Hp Hd Ho Hdata. rewrite decode_buffer. unfold bind.
    rewrite Hp, Hdata.
    rewrite decode_loop_unknown; try assumption; [reflexivity | |].
    - rewrite Hd. assumption.
    - rewrite Ho. assumption. }
  split; [apply decode_loop_unknown; assumption |].
  split; [intros chunk Hdata; apply Hdec; auto |].
  intros chunk fds later Hdata Hrecv Hne Hlen.
  destruct (recv_delivers (S fuel) d chunk fds later Hrecv Hne Hlen) as (s & _ & ->).
  unfold try_except. rewrite (Hdec _ chunk); auto.
Qed.

(** *** Chunked input *)

Lemma decode_loop_S (fuel : nat) (data : bytes) (d : Display) :
  decode_loop (S fuel) data d
  = match decode_step data d with
    | Stop => (Ok data, d)
    | Next data' d' => decode_loop fuel data' d'
    | Fail o d' => (o, d')
    end.
Proof.
  unfold decode_step. simpl.
  destruct (len data <? 8); [reflexivity |].
  destruct (len data <? header_size data); [reflexivity |].
  destruct (decide (header_id data ∈ dead_objects d)); [reflexivity |].
  destruct (objects d !! header_id data); [| reflexivity].
  destruct (unpack_event _ _ _ d) as [[ev | e |] d1]; reflexivity.
Qed.

Lemma decode_loop_O (data : bytes) (d : Display) (r : bytes) (d' : Display) :
  decode_loop 0 data d = (Ok r, d') -> len data < 8 /\ r = data /\ d' = d.
Proof.
  simpl. destruct (Z.ltb_spec (len data) 8); [| discriminate].
  intros [= <- <-]. auto.
Qed.

Lemma decode_step_stop (data : bytes) (d : Display) :
  decode_step data d = Stop <-> len data < 8 \/ len data < header_size data.
Proof.
  unfold decode_step.
  destruct (Z.ltb_spec (len data) 8); [split; auto |].
  destruct (Z.ltb_spec (len data) (header_size data)); [split; auto |].
  split; [| lia].
  destruct (decide (header_id data ∈ dead_objects d)); [discriminate |].
  destruct (objects d !! header_id data); [| discriminate].
  destruct (unpack_event _ _ _ d) as [[ev | e |] d1]; discriminate.
Qed.

Lemma decode_step_fails (data r : bytes) (d d' : Display) :
  decode_step data d <> Fail (Ok r) d'.
Proof.
  unfold decode_step. repeat case_match; discriminate.
Qed.

(** More fuel does not change a result. *)
Lemma decode_loop_more_fuel (fuel : nat) : forall data d r d',
  decode_loop fuel data d = (Ok r, d') ->
  decode_loop (S fuel) data d = (Ok r, d').
Proof.
  induction fuel as [|fuel IH]; intros data d r d' H.
  - apply decode_loop_O in H as (Hlen & -> & ->).
    apply decode_loop_short. assumption.
  - rewrite decode_loop_S in H. rewrite decode_loop_S.
    destruct (decode_step data d) as [| data1 d1 | o d1]; [assumption | | assumption].
    apply IH. assumption.
Qed.

(** The loop does not read [previous_data], and leaves it as it is. *)
Lemma unpack_event_previous (obj : addr) (op : Z) (data p : bytes) (d : Display) :
  unpack_event obj op data (set_previous_data p d)
  = ((unpack_event obj op data d).1,
     set_previous_data p (unpack_event obj op data d).2).
Proof.
  unfold unpack_event, bind, deref, get. simpl.
  destruct (cls (default blank (heap d !! obj))).
  - unfold Display_unpack_event, ret, raise.
    repeat case_match; reflexivity.
  - unfold Registry_unpack_event, ret, raise.
    repeat case_match; reflexivity.
  - unfold Callback_unpack_event, ret, raise.
    repeat case_match; reflexivity.
  - unfold with_view. simpl.
    destruct (unpack_other _ _ _ _ _) as [o [[objs hp] fds]]. reflexivity.
  - unfold with_view. simpl.
    destruct (unpack_other _ _ _ _ _) as [o [[objs hp] fds]]. reflexivity.
Qed.

Lemma decode_step_previous (data p : bytes) (d : Display) :
  decode_step data (set_previous_data p d)
  = match decode_step data d with
    | Stop => Stop
    | Next data' d' => Next data' (set_previous_data p d')
    | Fail o d' => Fail o (set_previous_data p d')
    end.
Proof.
  unfold decode_step. simpl.
  destruct (len data <? 8); [reflexivity |].
  destruct (len data <? header_size data); [reflexivity |].
  destruct (decide (header_id data ∈ dead_objects d)); [reflexivity |].
  destruct (objects d !! header_id data) as [obj|]; [| reflexivity].
  rewrite unpack_event_previous.
  destruct (unpack_event obj _ _ d) as [[ev | e |] d1]; reflexivity.
Qed.

Lemma decode_loop_previous (fuel : nat) : forall (data p : bytes) (d : Display),
  decode_loop fuel data (set_previous_data p d)
  = ((decode_loop fuel data d).1,
     set_previous_data p (decode_loop fuel data d).2).
Proof.
  induction fuel as [|fuel IH]; intros data p d.
  - simpl. destruct (len data <? 8); reflexivity.
  - rewrite !decode_loop_S, decode_step_previous.
    destruct (decode_step data d) as [| data1 d1 | o d1]; try reflexivity.
    apply IH.
Qed.

(** The header, and a frame that is all there, are the same in a longer
    buffer. *)
Lemma header_id_app (data more : bytes) :
  8 <= len data -> header_id (data ++ more) = header_id data.
Proof.
  intros H. unfold header_id, len in *. rewrite take_app_le by lia. reflexivity.
Qed.

Lemma header_sizeop_app (data more : bytes) :
  8 <= len data -> header_sizeop (data ++ more) = header_sizeop data.
Proof.
  intros H. unfold header_sizeop, len in *.
  rewrite drop_app_le by lia. rewrite take_app_le; [reflexivity |].
  rewrite length_drop. lia.
Qed.

Lemma header_size_app (data more : bytes) :
  8 <= len data -> header_size (data ++ more) = header_size data.
Proof. intros H. unfold header_size. rewrite header_sizeop_app by assumption. reflexivity. Qed.

Lemma header_op_app (data more : bytes) :
  8 <= len data -> header_op (data ++ more) = header_op data.
Proof. intros H. unfold header_op. rewrite header_sizeop_app by assumption. reflexivity. Qed.

Lemma slice_from_app (n : Z) (data more : bytes) :
  n <= len data -> slice_from n (data ++ more) = slice_from n data ++ more.
Proof.
  intros H. unfold slice_from, len in *. apply drop_app_le. lia.
Qed.

Lemma slice_app (a b : Z) (data more : bytes) :
  0 <= a -> b <= len data -> slice a b (data ++ more) = slice a b data.
Proof.
  intros H0 H. unfold slice, len in *.
  destruct (decide (Z.to_nat a <= length data)%nat) as [Ha | Ha].
  - rewrite drop_app_le by lia. apply take_app_le. rewrite length_drop. lia.
  - replace (Z.to_nat (b - a)) with 0%nat by lia. reflexivity.
Qed.

Lemma len_app (data more : bytes) : len (data ++ more) = len data + len more.
Proof. unfold len. rewrite length_app. lia. Qed.

Lemma len_nonneg {A} (l : list A) : 0 <= len l.
Proof. unfold len. lia. Qed.

(** An iteration on a longer buffer: the shorter buffer stops, or makes
    the same iteration. *)
Lemma decode_step_app (data more : bytes) (d : Display) :
  match decode_step (data ++ more) d with
  | Stop => decode_step data d = Stop
  | Next data2 d2 =>
      decode_step data d = Stop
      \/ exists data1, decode_step data d = Next data1 d2 /\ data2 = data1 ++ more
  | Fail o d2 => decode_step data d = Stop \/ decode_step data d = Fail o d2
  end.
Proof.
  pose proof (len_nonneg more) as Hmore.
  destruct (Z.lt_ge_cases (len data) 8) as [Hshort | H8].
  { assert (Hs : decode_step data d = Stop) by (apply decode_step_stop; auto).
    destruct (decode_step (data ++ more) d); auto. }
  destruct (Z.lt_ge_cases (len data) (header_size data)) as [Hinc | Hsize].
  { assert (Hs : decode_step data d = Stop) by (apply decode_step_stop; auto).
    destruct (decode_step (data ++ more) d); auto. }
  unfold decode_step.
  rewrite header_id_app, header_size_app, header_op_app by assumption.
  rewrite slice_from_app, slice_app by (assumption || lia).
  rewrite len_app.
  destruct (Z.ltb_spec (len data + len more) 8); [lia |].
  destruct (Z.ltb_spec (len data + len more) (header_size data)); [lia |].
  destruct (Z.ltb_spec (len data) 8); [lia |].
  destruct (Z.ltb_spec (len data) (header_size data)); [lia |].
  destruct (decide (header_id data ∈ dead_objects d)); [right; eauto |].
  destruct (objects d !! header_id data) as [obj|]; [| auto].
  destruct (unpack_event obj _ _ d) as [[ev | e |] d1]; [right; eauto | auto | auto].
Qed.

(** The loop on [data ++ more] is the loop on [data] followed by the loop on
    what it left and [more]. *)
Lemma decode_loop_app (fuel : nat) : forall data more d r2 d2,
  decode_loop fuel (data ++ more) d = (Ok r2, d2) ->
  exists r1 d1,
    decode_loop fuel data d = (Ok r1, d1)
    /\ decode_loop fuel (r1 ++ more) d1 = (Ok r2, d2).
Proof.
  induction fuel as [|fuel IH]; intros data more d r2 d2 H.
  - pose proof H as H'. apply decode_loop_O in H' as (Hlen & _ & _).
    exists data, d. split; [| assumption].
    apply decode_loop_short. rewrite len_app in Hlen.
    pose proof (len_nonneg more). lia.
  - pose proof H as Hwhole. rewrite decode_loop_S in H.
    pose proof (decode_step_app data more d) as Hstep.
    destruct (decode_step (data ++ more) d) as [| data2 d' | o d'].
    + exists data, d. split; [| assumption].
      rewrite decode_loop_S, Hstep. reflexivity.
    + destruct Hstep as [Hstop | (data1 & Hnext & ->)].
      * exists data, d. split; [| assumption].
        rewrite decode_loop_S, Hstop. reflexivity.
      * destruct (IH _ _ _ _ _ H) as (r1 & d1 & Hfirst & Hsecond).
        exists r1, d1. split.
        -- rewrite decode_loop_S, Hnext. assumption.
        -- apply decode_loop_more_fuel. assumption.
    + destruct Hstep as [Hstop | Hfail].
      * exists data, d. split; [| assumption].
        rewrite decode_loop_S, Hstop. reflexivity.
      * injection H as -> ->. exfalso. eapply decode_step_fails. exact Hfail.
Qed.

Lemma decode_ok (fuel : nat) (chunk : bytes) (d d' : Display) :
  decode fuel chunk d = (Ok tt, d') <->
  exists r d1,
    decode_loop fuel (previous_data d ++ chunk) d = (Ok r, d1)
    /\ d' = set_previous_data r d1.
Proof.
  rewrite decode_buffer. unfold bind, modify.
  destruct (decode_loop fuel (previous_data d ++ chunk) d) as [[r | e |] d1].
  - split.
    + intros [= <-]. eauto.
    + intros (r' & d1' & [= <- <-] & ->). reflexivity.
  - split; [discriminate | intros (? & ? & [=] & _)].
  - split; [discriminate | intros (? & ? & [=] & _)].
Qed.

(** Two chunks. *)
Lemma decode_app (fuel : nat) (first second : bytes) (d d2 : Display) :
  decode fuel (first ++ second) d = (Ok tt, d2) ->
  exists d1,
    decode fuel first d = (Ok tt, d1) /\ decode fuel second d1 = (Ok tt, d2).
Proof.
  intros H. apply decode_ok in H as (r2 & d2' & Hloop & ->).
  rewrite app_assoc in Hloop.
  apply decode_loop_app in Hloop as (r1 & d1 & Hfirst & Hsecond).
  exists (set_previous_data r1 d1). split.
  - apply decode_ok. eauto.
  - apply decode_ok. exists r2, (set_previous_data r1 d2'). split.
    + simpl. rewrite decode_loop_previous, Hsecond. reflexivity.
    + reflexivity.
Qed.

(** C2: when [decode] takes a byte stream in one call and returns, the calls
    of [decode] on the chunks of any splitting of the stream, one after the
    other, return too and end in the same state: the same queue of events in
    the same order, the same bytes kept. *)
Theorem decode_chunking (fuel : nat) (chunk : bytes) (later : list bytes)
    (d d' : Display) :
  decode fuel (concat (chunk :: later)) d = (Ok tt, d') ->
  decode_chunks fuel (chunk :: later) d = (Ok tt, d').
Proof.
  revert chunk d. induction later as [|next later IH]; intros chunk d H.
  - simpl in *. rewrite app_nil_r in H. unfold bind. rewrite H. reflexivity.
  - change (concat (chunk :: next :: later))
      with (chunk ++ concat (next :: later)) in H.
    apply decode_app in H as (d1 & Hfirst & Hrest).
    change (decode_chunks fuel (chunk :: next :: later) d)
      with ((let* _ := decode fuel chunk in decode_chunks fuel (next :: later)) d).
    unfold bind at 1. rewrite Hfirst. apply IH. assumption.
Qed.

End Decoding.

Lemma decode_chunking_witness :
  let whole :=
    decode Sample.utf8_decode Sample.unpack_other 4 two_frames (Sample.fresh ∅) in
  whole.1 = Ok tt
  /\ length (event_queue whole.2) = 2%nat
  /\ decode_chunks Sample.utf8_decode Sample.unpack_other 4
       [take 5 two_frames; take 10 (drop 5 two_frames); drop 15 two_frames]
       (Sample.fresh ∅)
     = (Ok tt, whole.2).
Proof.
  split; [vm_compute; reflexivity |]. split; [vm_compute; reflexivity |].
  apply (decode_chunking Sample.utf8_decode Sample.unpack_other 4
           (take 5 two_frames)
           [take 10 (drop 5 two_frames); drop 15 two_frames] (Sample.fresh ∅)).
  vm_compute. reflexivity.
Defined.


Lemma unknown_object_is_fatal_witness :
  decode_loop Sample.utf8_decode Sample.unpack_other 1 stray pending_delete
  = (Raise (OSError None), pending_delete)
  /\ (forall chunk, previous_data pending_delete ++ chunk = stray ->
        decode Sample.utf8_decode Sample.unpack_other 1 chunk pending_delete
        = (Raise (OSError None), pending_delete))
  /\ (forall chunk fds later,
        previous_data pending_delete ++ chunk = stray ->
        to_recv (connection pending_delete) = Delivers chunk fds :: later ->
        chunk <> [] -> len chunk <= 1024 ->
        (recv Sample.utf8_decode Sample.unpack_other 1 pending_delete).1
        = Raise (OSError None)).
Proof.
  apply (unknown_object_is_fatal Sample.utf8_decode Sample.unpack_other 0
           stray pending_delete).
  - vm_compute. discriminate.
  - vm_compute. discriminate.
  - vm_compute. intros H. inversion H as [| ? ? ? H']. inversion H'.
  - vm_compute. reflexivity.
Defined.

Lemma decode_incomplete_frame_witness :
  decode Sample.utf8_decode Sample.unpack_other 1 truncated (Sample.fresh ∅)
  = (Ok tt, set_previous_data (previous_data (Sample.fresh ∅) ++ truncated)
              (Sample.fresh ∅)).
Proof.
  apply (decode_incomplete_frame Sample.utf8_decode Sample.unpack_other 0
           truncated (Sample.fresh ∅)).
  - vm_compute. discriminate.
  - vm_compute. reflexivity.
Defined.

(** ** Sending in order *)

(** A send call touches the socket only. *)
Lemma sendmsg_cases (data : bytes) (fds : list Z) (d : Display) :
  match to_send (connection d) with
  | [] => sendmsg data fds d = (OutOfFuel, d)
  | Accepts k :: later =>
      exists s,
        sendmsg data fds d = (Ok (len (take k data)), set_connection s d)
        /\ to_send s = later
        /\ wire s = wire (connection d) ++ [(take k data, fds)]
  | SendError e :: later =>
      exists s,
        sendmsg data fds d = (Raise (OSError (Some e)), set_connection s d)
        /\ to_send s = later
        /\ wire s = wire (connection d)
  end.
Proof.
  unfold sendmsg, on_connection, sock_send.
  destruct (to_send (connection d)) as [|[k | e] later] eqn:E.
  - destruct d as [[]]; simpl in *. reflexivity.
  - eexists. split; [reflexivity |]. simpl. auto.
  - eexists. split; [reflexivity |]. simpl. auto.
Qed.

Lemma set_connection_same (d : Display) : d = set_connection (connection d) d.
Proof. destruct d. reflexivity. Qed.

Lemma sends_rest_nothing (data : bytes) (sent : Z) (d : Display) (o : outcome unit) :
  match o with
  | Ok _ => len data <= sent
  | Raise _ => False
  | OutOfFuel => True
  end ->
  sends_rest data sent d o d.
Proof.
  intros Ho. exists [], [].
  split; [apply set_connection_same |].
  split; [symmetry; apply app_nil_r |].
  split; [reflexivity |].
  split; [constructor |].
  split; [apply prefix_nil |].
  destruct o as [[] | e |]; [| contradiction | exact I].
  split; [| constructor].
  unfold slice_from, len in *. symmetry. apply drop_ge. lia.
Qed.

Lemma send_rest_spec (fuel : nat) : forall data sent d o d1,
  0 <= sent <= len data ->
  send_rest fuel data sent d = (o, d1) ->
  sends_rest data sent d o d1.
Proof.
  induction fuel as [|fuel IH]; intros data sent d o d1 Hsent H.
  - simpl in H. destruct (Z.ltb_spec sent (len data)); injection H as <- <-;
      apply sends_rest_nothing; [exact I | lia].
  - simpl in H. destruct (Z.ltb_spec sent (len data));
      [| injection H as <- <-; apply sends_rest_nothing; lia].
    pose proof (sendmsg_cases (slice_from sent data) [] d) as Hs.
    unfold send in H. unfold sendmsg in Hs.
    destruct (to_send (connection d)) as [|[k | e] later] eqn:E.
    + rewrite Hs in H. injection H as <- <-. apply sends_rest_nothing. exact I.
    + destruct Hs as (s & Hs & Hlater & Hwire). rewrite Hs in H.
      set (seg := take k (slice_from sent data)) in *.
      assert (Hseg : 0 <= len seg <= len data - sent).
      { unfold seg, slice_from, len in *. rewrite length_take, length_drop. lia. }
      apply IH in H; [| lia].
      destruct H as (segs & used & Hd1 & Hw & Hu & Hfds & Hpre & Ho).
      assert (Hdrop : slice_from (sent + len seg) data
                      = drop k (slice_from sent data)).
      { unfold seg, slice_from, len in *. rewrite length_take, length_drop.
        rewrite drop_drop.
        destruct (decide (k <= length data - Z.to_nat sent)%nat).
        - f_equal. lia.
        - rewrite !drop_ge by lia. reflexivity. }
      rewrite Hdrop in *.
      assert (Hsplit : slice_from sent data = seg ++ drop k (slice_from sent data)).
      { unfold seg. symmetry. apply take_drop. }
      exists ((seg, []) :: segs), (Accepts k :: used). simpl in *.
      split; [rewrite Hd1 at 1; reflexivity |].
      split; [rewrite Hw, Hwire, <- app_assoc; reflexivity |].
      split; [rewrite E, <- Hlater, Hu; reflexivity |].
      split; [constructor; auto |].
      split.
      { unfold payload in *. simpl. rewrite Hsplit.
        apply prefix_app. assumption. }
      destruct o as [[] | e |]; [| | exact I].
      * destruct Ho as [Hp Hacc]. split.
        -- unfold payload in *. simpl. rewrite Hp. symmetry. assumption.
        -- constructor; [eexists; reflexivity | assumption].
      * destruct Ho as (errno & acc & -> & -> & Hacc).
        exists errno, (Accepts k :: acc). repeat split.
        constructor; [eexists; reflexivity | assumption].
    + destruct Hs as (s & Hs & Hlater & Hwire). rewrite Hs in H.
      injection H as <- <-. exists [], [SendError e]. simpl.
      split; [reflexivity |].
      split; [rewrite app_nil_r; assumption |].
      split; [rewrite E, Hlater; reflexivity |].
      split; [constructor |].
      split; [apply prefix_nil |].
      exists e, []. repeat split. constructor.
Qed.

Lemma segments_of_nil (entry : bytes * list Z) : segments_of entry [].
Proof. split; [apply prefix_nil | exact I]. Qed.

Lemma attempt_spec (fuel : nat) (data : bytes) (fds : list Z)
    (d : Display) (o : outcome unit) (d1 : Display) :
  (let* sent := sendmsg data fds in send_rest fuel data sent) d = (o, d1) ->
  sends_entry (data, fds) d o d1.
Proof.
  unfold bind. intros H. pose proof (sendmsg_cases data fds d) as Hs.
  destruct (to_send (connection d)) as [|[k | e] later] eqn:E.
  - rewrite Hs in H. injection H as <- <-. exists [], [].
    split; [apply set_connection_same |].
    split; [symmetry; apply app_nil_r |].
    split; [reflexivity |].
    split; [apply segments_of_nil | exact I].
  - destruct Hs as (s & Hs & Hlater & Hwire). rewrite Hs in H.
    assert (Hlen : 0 <= len (take k data) <= len data).
    { unfold len. rewrite length_take. lia. }
    apply send_rest_spec in H; [| assumption].
    destruct H as (segs & used & Hd1 & Hw & Hu & Hfds & Hpre & Ho).
    assert (Hdrop : slice_from (len (take k data)) data = drop k data).
    { unfold slice_from, len. rewrite length_take.
      destruct (decide (k <= length data)%nat).
      - f_equal. lia.
      - rewrite !drop_ge by lia. reflexivity. }
    rewrite Hdrop in *. simpl in *.
    assert (Hseg : segments_of (data, fds) ((take k data, fds) :: segs)).
    { split; [| auto]. unfold payload in *. simpl.
      rewrite <- (take_drop k data) at 2. apply prefix_app. assumption. }
    exists ((take k data, fds) :: segs), (Accepts k :: used).
    split; [rewrite Hd1 at 1; reflexivity |].
    split; [rewrite Hw, Hwire, <- app_assoc; reflexivity |].
    split; [rewrite E, <- Hlater, Hu; reflexivity |].
    split; [exact Hseg |].
    destruct o as [[] | e |]; [| | exact I].
    + destruct Ho as [Hp Hacc]. split.
      * split; [discriminate |]. split; [exact Hseg |].
        unfold payload in *. simpl. rewrite Hp. apply take_drop.
      * constructor; [eexists; reflexivity | assumption].
    + destruct Ho as (errno & acc & -> & -> & Hacc).
      exists errno, (Accepts k :: acc). repeat split.
      constructor; [eexists; reflexivity | assumption].
  - destruct Hs as (s & Hs & Hlater & Hwire). rewrite Hs in H.
    injection H as <- <-. exists [], [SendError e]. simpl.
    split; [reflexivity |].
    split; [rewrite app_nil_r; assumption |].
    split; [rewrite E, Hlater; reflexivity |].
    split; [apply segments_of_nil |].
    exists e, []. repeat split. constructor.
Qed.

Lemma flush_spec (fuel : nat) : forall d o d',
  flush fuel d = (o, d') -> flushes d o d'.
Proof.
  induction fuel as [|fuel IH]; intros d o d' H.
  - simpl in H. destruct (out_queue d) as [|[data fds] rest] eqn:Q;
      injection H as <- <-.
    + exists [], [], [], [], []. rewrite Q, !app_nil_r.
      repeat split; auto using transmits_none.
    + exists [], ((data, fds) :: rest), [], [], []. rewrite Q, !app_nil_r.
      repeat split; auto using transmits_none.
  - simpl in H. destruct (out_queue d) as [|[data fds] rest] eqn:Q.
    { injection H as <- <-. exists [], [], [], [], []. rewrite Q, !app_nil_r.
      repeat split; auto using transmits_none. }
    destruct ((let* sent := sendmsg data fds in send_rest fuel data sent)
                (set_out_queue rest d)) as [o1 d1] eqn:A.
    apply attempt_spec in A.
    destruct A as (segs & used & Hd1 & Hw & Hu & Hseg & Ho). simpl in Hw, Hu.
    assert (Hq : out_queue d1 = rest) by (rewrite Hd1; reflexivity).
    destruct o1 as [[] | e |].
    + destruct Ho as [Htr Hacc].
      apply IH in H.
      destruct H as (done & pending & sd & sh & used' & Hsplit & Hw' & Hu' & Hall & Hout).
      exists ((data, fds) :: done), pending, (segs ++ sd), sh, (used ++ used').
      rewrite Hq in Hsplit.
      split; [rewrite Q, Hsplit; reflexivity |].
      split; [rewrite Hw', Hw, <- !app_assoc; reflexivity |].
      split; [rewrite Hu, Hu', <- app_assoc; reflexivity |].
      split; [constructor; assumption |].
      destruct o as [[] | e |]; [| assumption | assumption].
      destruct Hout as [Hp [(-> & -> & Hacc') | (A & rest' & acc & -> & HA & -> & Hacc')]].
      * split; [assumption |]. left. repeat split. apply Forall_app; auto.
      * split; [assumption |]. right. exists A, rest', (used ++ acc).
        split; [reflexivity |]. split; [assumption |].
        split; [apply app_assoc | apply Forall_app; auto].
    + destruct Ho as (errno & acc & -> & -> & Hacc).
      destruct (decide (OSError (Some errno) = OSError (Some 11))) as [Heq | Hne];
        injection H as <- <-.
      * injection Heq as ->.
        exists [], ((data, fds) :: rest), [], segs, (acc ++ [SendError 11]).
        split; [rewrite Q; reflexivity |].
        split; [simpl; assumption |].
        split; [simpl; assumption |].
        split; [constructor |].
        simpl. rewrite Hq. split; [reflexivity |]. right.
        exists (data, fds), rest, acc. auto.
      * exists [], ((data, fds) :: rest), [], segs, (acc ++ [SendError errno]).
        split; [rewrite Q; reflexivity |].
        split; [simpl; assumption |].
        split; [simpl; assumption |].
        split; [constructor |].
        exists (data, fds), rest. auto.
    + injection H as <- <-.
      exists [], ((data, fds) :: rest), [], segs, used.
      split; [rewrite Q; reflexivity |].
      split; [simpl; assumption |].
      split; [simpl; assumption |].
      split; [constructor |].
      right. exists (data, fds), rest. auto.
Qed.

Lemma transmits_all_inv_nil (segs : list (bytes * list Z)) :
  transmits_all [] segs -> segs = [].
Proof. inversion 1. reflexivity. Qed.

Lemma transmits_all_inv_cons (entry : bytes * list Z) entries segs :
  transmits_all (entry :: entries) segs ->
  exists first others,
    segs = first ++ others /\ transmits entry first /\ transmits_all entries others.
Proof. inversion 1; subst. eauto. Qed.

(** The wire of a flush whose queue begins with [A]: segments of [A] first,
    and anything else only once [A] has gone whole. *)
Lemma flush_head_first (fuel : nat) (d d' : Display) (o : outcome unit)
    (A : bytes * list Z) (rest : list (bytes * list Z)) :
  out_queue d = A :: rest ->
  flush fuel d = (o, d') ->
  exists segs_A more,
    wire (connection d') = wire (connection d) ++ segs_A ++ more
    /\ segments_of A segs_A
    /\ (more <> [] -> transmits A segs_A).
Proof.
  intros Hq H. apply flush_spec in H.
  destruct H as (done & pending & sd & sh & used & Hsplit & Hw & _ & Hall & Hout).
  rewrite Hq in Hsplit. destruct done as [|entry done].
  - apply transmits_all_inv_nil in Hall as ->. simpl in Hsplit, Hw.
    exists sh, []. rewrite app_nil_r.
    split; [assumption |]. split; [| intros []; reflexivity].
    destruct o as [[] | e |].
    + destruct Hout as [_ [(-> & _) | (A0 & rest0 & acc & -> & HA & _)]];
        [discriminate |].
      injection Hsplit as -> _. assumption.
    + destruct Hout as (A0 & rest0 & -> & _ & HA).
      injection Hsplit as -> _. assumption.
    + destruct Hout as [-> | (A0 & rest0 & -> & HA)];
        [apply segments_of_nil |].
      injection Hsplit as -> _. assumption.
  - injection Hsplit as <- _.
    apply transmits_all_inv_cons in Hall as (first & others & -> & Hfirst & _).
    exists first, (others ++ sh).
    split; [rewrite Hw, <- !app_assoc; reflexivity |].
    split; [apply Hfirst | intros _; exact Hfirst].
Qed.

(** C3: when the last reply of the socket to a call of [flush] is the
    would-block error, the entry [A] that was being sent is at the head of
    the queue as it was, with the entries behind it behind it; the wire got
    the entries before [A] whole and in order, and of [A] a part at most.
    In every later call of [flush], on this queue and what has been
    appended to it, the wire gets segments of [A] first, and gets anything
    else only after all of [A]. *)
Theorem flush_keeps_order (fuel : nat) (d d' : Display) (used : list send_reply) :
  flush fuel d = (Ok tt, d') ->
  to_send (connection d) = used ++ SendError 11 :: to_send (connection d') ->
  exists done A rest segs_done segs_A,
    out_queue d = done ++ A :: rest
    /\ out_queue d' = A :: rest
    /\ wire (connection d') = wire (connection d) ++ segs_done ++ segs_A
    /\ transmits_all done segs_done
    /\ segments_of A segs_A
    /\ forall fuel2 d2 o d3 appended,
         out_queue d2 = out_queue d' ++ appended ->
         flush fuel2 d2 = (o, d3) ->
         exists segs_A' more,
           wire (connection d3) = wire (connection d2) ++ segs_A' ++ more
           /\ segments_of A segs_A'
           /\ (more <> [] -> transmits A segs_A').
Proof.
  intros H Hblock. apply flush_spec in H.
  destruct H as (done & pending & sd & sh & used0 & Hsplit & Hw & Hu & Hall & Hout).
  destruct Hout as [Hq [(-> & -> & Hacc) | (A & rest & acc & -> & HA & -> & Hacc)]].
  - exfalso. rewrite Hu in Hblock.
    change (used ++ SendError 11 :: to_send (connection d'))
      with (used ++ [SendError 11] ++ to_send (connection d')) in Hblock.
    rewrite app_assoc in Hblock. apply app_inv_tail in Hblock. subst used0.
    apply Forall_app in Hacc as [_ Hlast].
    inversion Hlast as [| ? ? [k Hk] _]. discriminate Hk.
  - exists done, A, rest, sd, sh.
    split; [assumption |]. split; [assumption |]. split; [assumption |].
    split; [assumption |]. split; [assumption |].
    intros fuel2 d2 o d3 appended Hq2 H2. rewrite Hq in Hq2.
    eapply flush_head_first; eassumption.
Qed.

Lemma flush_keeps_order_witness :
  exists done A rest segs_done segs_A,
    out_queue congested = done ++ A :: rest
    /\ out_queue (flush 4 congested).2 = A :: rest
    /\ wire (connection (flush 4 congested).2)
       = wire (connection congested) ++ segs_done ++ segs_A
    /\ transmits_all done segs_done
    /\ segments_of A segs_A
    /\ forall fuel2 d2 o d3 appended,
         out_queue d2 = out_queue (flush 4 congested).2 ++ appended ->
         flush fuel2 d2 = (o, d3) ->
         exists segs_A' more,
           wire (connection d3) = wire (connection d2) ++ segs_A' ++ more
           /\ segments_of A segs_A'
           /\ (more <> [] -> transmits A segs_A').
Proof.
  apply (flush_keeps_order 4 congested (flush 4 congested).2 [Accepts 3]).
  - vm_compute. reflexivity.
  - vm_compute. reflexivity.
Defined.

(** ** The roundtrip barrier *)

Lemma byte_val_of (z : Z) : byte_val (byte_of z) = z mod 256.
Proof.
  unfold byte_val, byte_of.
  assert (Hr : 0 <= z mod 256 < 256) by (apply Z.mod_pos_bound; lia).
  destruct (Byte.of_N (Z.to_N (z mod 256))) as [b|] eqn:E.
  - simpl. apply Byte.to_of_N in E. rewrite E. lia.
  - apply Byte.of_N_None_iff in E. lia.
Qed.

Lemma le_uint_le_bytes_4 (z : Z) :
  0 <= z < 2 ^ 32 -> le_uint (le_bytes 4 z) = z.
Proof.
  intros H. simpl. rewrite !byte_val_of.
  rewrite (Z.mod_small (z / 256 / 256 / 256) 256).
  2: { split; [repeat apply Z.div_pos; lia |].
       repeat (apply Z.div_lt_upper_bound; [lia |]). lia. }
  pose proof (Z.div_mod z 256 ltac:(lia)).
  pose proof (Z.div_mod (z / 256) 256 ltac:(lia)).
  pose proof (Z.div_mod (z / 256 / 256) 256 ltac:(lia)).
  lia.
Qed.

Lemma done_frame_header (id : Z) (callback_data : bytes) :
  0 <= id < 2 ^ 32 ->
  header_id (done_frame id callback_data) = id
  /\ header_size (done_frame id callback_data) = 12
  /\ header_op (done_frame id callback_data) = 0.
Proof.
  intros H. split; [| split].
  - unfold header_id, done_frame.
    change (take 4 (le_bytes 4 id ++ _)) with (le_bytes 4 id).
    apply le_uint_le_bytes_4. assumption.
  - reflexivity.
  - reflexivity.
Qed.

Lemma done_frame_length (id : Z) (callback_data : bytes) :
  length callback_data = 4%nat -> length (done_frame id callback_data) = 12%nat.
Proof. intros H. unfold done_frame. rewrite !length_app, H. reflexivity. Qed.

Lemma completes_prefix (frame got : bytes) (replies : list recv_reply) :
  completes frame got replies ->
  exists more, more <> [] /\ got ++ more = frame.
Proof.
  induction 1 as [got chunk fds Hne Heq | got replies _ IH | got chunk fds replies _ IH].
  - eauto.
  - assumption.
  - destruct IH as (more & Hne & Heq). exists (chunk ++ more). split.
    + intros Hnil. apply app_eq_nil in Hnil as [_ ?]. contradiction.
    + rewrite app_assoc. assumption.
Qed.

Lemma send_rest_done (fuel : nat) (data : bytes) (sent : Z) (d : Display) :
  len data <= sent -> send_rest fuel data sent d = (Ok tt, d).
Proof.
  intros H. destruct fuel; simpl;
    (destruct (sent <? len data) eqn:E; [apply Z.ltb_lt in E; lia | reflexivity]).
Qed.

(** One turn of the loop of [flush] on a socket that takes the head entry
    in one call. *)
Lemma flush_whole_entry (fuel : nat) (d : Display) (data : bytes) (fds : list Z)
    (rest : list (bytes * list Z)) (k : nat) (later : list send_reply) :
  out_queue d = (data, fds) :: rest ->
  to_send (connection d) = Accepts k :: later ->
  (length data <= k)%nat ->
  flush (S fuel) d
  = flush fuel
      (set_connection
         {| to_send := later; to_recv := to_recv (connection d);
            wire := wire (connection d) ++ [(data, fds)];
            closed := closed (connection d) |}
         (set_out_queue rest d)).
Proof.
  intros Hq Hs Hk. simpl. rewrite Hq.
  unfold bind, sendmsg, on_connection, sock_send.
  destruct d as [s o i ob de q ev fd pr gl te he ce]. simpl in *. rewrite Hs.
  rewrite (take_ge data k) by lia.
  rewrite send_rest_done by lia. reflexivity.
Qed.

(** [flush] on a socket that takes each entry of the queue whole in one
    call. *)
Lemma flush_accepting (ks : list nat) : forall (fuel : nat) (d : Display)
    (later : list send_reply),
  Forall2 (fun entry k => (length entry.1 <= k)%nat) (out_queue d) ks ->
  to_send (connection d) = map Accepts ks ++ later ->
  (length (out_queue d) <= fuel)%nat ->
  exists s,
    flush fuel d = (Ok tt, set_out_queue [] (set_connection s d))
    /\ wire s = wire (connection d) ++ out_queue d
    /\ to_send s = later
    /\ to_recv s = to_recv (connection d)
    /\ closed s = closed (connection d).
Proof.
  induction ks as [|k ks IH]; intros fuel d later Hall Hs Hfuel.
  - apply Forall2_nil_inv_r in Hall. exists (connection d).
    rewrite Hall, app_nil_r. simpl in Hs.
    split; [| auto].
    destruct fuel; simpl; rewrite Hall; destruct d; simpl in *; subst; reflexivity.
  - apply Forall2_cons_inv_r in Hall as ([data fds] & rest & Hk & Hall & Hq).
    simpl in Hk, Hs. rewrite Hq in Hfuel. simpl in Hfuel.
    destruct fuel as [|fuel]; [lia |].
    rewrite (flush_whole_entry fuel d data fds rest k _ Hq Hs Hk).
    set (d1 := set_connection
                 {| to_send := map Accepts ks ++ later;
                    to_recv := to_recv (connection d);
                    wire := wire (connection d) ++ [(data, fds)];
                    closed := closed (connection d) |}
                 (set_out_queue rest d)).
    assert (Hq1 : out_queue d1 = rest) by (destruct d; reflexivity).
    assert (Hc1 : connection d1
                  = {| to_send := map Accepts ks ++ later;
                       to_recv := to_recv (connection d);
                       wire := wire (connection d) ++ [(data, fds)];
                       closed := closed (connection d) |})
      by (destruct d; reflexivity).
    destruct (IH fuel d1 later)
      as (s & Hrun & Hwire & Hlater & Hrecv & Hclosed).
    + rewrite Hq1. exact Hall.
    + rewrite Hc1. reflexivity.
    + rewrite Hq1. lia.
    + rewrite Hq1 in Hwire. rewrite Hc1 in Hwire, Hrecv, Hclosed.
      simpl in Hwire, Hrecv, Hclosed.
      exists s. split; [etransitivity; [exact Hrun |]; subst d1; destruct d; reflexivity |].
      split; [rewrite Hwire, Hq, <- app_assoc; reflexivity |].
      auto.
Qed.

Section Roundtrip.

Variable pack_arguments : proxy -> Z -> list value -> bytes.
Variable utf8_decode : bytes -> option string.
Variable remove_obj : Z -> M unit.
Variable unpack_other : pyclass -> addr -> Z -> bytes -> view -> outcome (option event) * view.
Variable handle_other : pyclass -> addr -> Z -> list value -> M unit.

Local Abbreviation decode := (decode utf8_decode unpack_other).
Local Abbreviation decode_loop := (decode_loop utf8_decode unpack_other).
Local Abbreviation recv := (recv utf8_decode unpack_other).
Local Abbreviation recv_events := (recv_events utf8_decode unpack_other).
Local Abbreviation dispatch_pending :=
  (dispatch_pending pack_arguments remove_obj handle_other).
Local Abbreviation dispatch :=
  (dispatch pack_arguments utf8_decode remove_obj unpack_other handle_other).
Local Abbreviation roundtrip_loop :=
  (roundtrip_loop pack_arguments utf8_decode remove_obj unpack_other handle_other).
Local Abbreviation roundtrip :=
  (roundtrip pack_arguments utf8_decode remove_obj unpack_other handle_other).
Local Abbreviation roundtrip_setup := (roundtrip_setup pack_arguments).

Lemma recv_would_block (fuel : nat) (d : Display) (later : list recv_reply) :
  to_recv (connection d) = RecvError 11 :: later ->
  exists s, to_recv s = later /\ recv fuel d = (Ok tt, set_connection s d).
Proof.
  intros Hrecv. eexists. split;
    [| unfold recv, try_except, bind, recvmsg, on_connection, sock_recv;
       rewrite Hrecv; simpl; reflexivity].
  reflexivity.
Qed.

Lemma recv_nothing (fuel : nat) (d : Display) (fds : list Z) (later : list recv_reply) :
  to_recv (connection d) = Delivers [] fds :: later ->
  exists s,
    to_recv s = later
    /\ recv fuel d
       = (Ok tt, set_incoming_fds (incoming_fds d ++ take 16 fds) (set_connection s d)).
Proof.
  intros Hrecv. eexists. split;
    [| unfold recv, try_except, bind, recvmsg, on_connection, sock_recv, modify;
       rewrite Hrecv; simpl; reflexivity].
  reflexivity.
Qed.

(** A part of the done frame is kept for the next call. *)
Lemma decode_part_of_done (fuel : nat) (id : Z) (callback_data chunk more : bytes)
    (d : Display) :
  0 <= id < 2 ^ 32 -> length callback_data = 4%nat ->
  more <> [] ->
  (previous_data d ++ chunk) ++ more = done_frame id callback_data ->
  decode (S fuel) chunk d
  = (Ok tt, set_previous_data (previous_data d ++ chunk) d).
Proof.
  intros Hid Hbody Hmore Hframe. rewrite decode_buffer. unfold bind.
  set (data := previous_data d ++ chunk) in *.
  assert (Hlen : len data < 12).
  { pose proof (done_frame_length id callback_data Hbody) as H12.
    rewrite <- Hframe, length_app in H12. unfold len.
    destruct more; [contradiction | simpl in H12; lia]. }
  destruct (Z.lt_ge_cases (len data) 8) as [Hshort | H8].
  - rewrite decode_loop_short by assumption. reflexivity.
  - rewrite decode_loop_incomplete; [reflexivity | assumption |].
    rewrite <- (header_size_app data more) by assumption.
    rewrite Hframe.
    destruct (done_frame_header id callback_data Hid) as (_ & -> & _). assumption.
Qed.

(** The whole done frame queues the done event of the callback. *)
Lemma decode_done (fuel : nat) (id : Z) (callback_data chunk : bytes)
    (d : Display) (a : addr) (p : proxy) :
  0 <= id < 2 ^ 32 -> length callback_data = 4%nat ->
  previous_data d ++ chunk = done_frame id callback_data ->
  id ∉ dead_objects d ->
  objects d !! id = Some a ->
  heap d !! a = Some p -> cls p = Callback_class ->
  decode (S fuel) chunk d
  = (Ok tt,
     set_previous_data []
       (set_event_queue
          (event_queue d ++ [Some (a, 0, [VInt (le_uint callback_data)])]) d)).
Proof.
  intros Hid Hbody Hframe Hdead Hlive Hheap Hcls.
  rewrite decode_buffer. unfold bind. rewrite Hframe.
  destruct (done_frame_header id callback_data Hid) as (Hi & Hs & Ho).
  pose proof (done_frame_length id callback_data Hbody) as H12.
  assert (Hslice : slice 8 12 (done_frame id callback_data) = callback_data).
  { unfold slice, done_frame. simpl. apply take_ge. lia. }
  assert (Hrest : slice_from 12 (done_frame id callback_data) = []).
  { unfold slice_from. apply drop_ge. lia. }
  rewrite (decode_loop_live _ _ fuel _ d a); rewrite ?Hi, ?Hs, ?Ho;
    try assumption; unfold len; try lia.
  rewrite Hslice, Hrest.
  unfold unpack_event, bind, deref, get. rewrite Hheap. simpl. rewrite Hcls.
  unfold Callback_unpack_event, unpack_I.
  destruct (decide (length callback_data = 4%nat)); [| contradiction].
  unfold ret. rewrite decode_loop_short by (unfold len; simpl; lia).
  reflexivity.
Qed.

(** The receive loop of [dispatch], while the done frame arrives. *)
Lemma recv_events_done (id : Z) (callback_data : bytes) (a : addr) (p : proxy) :
  0 <= id < 2 ^ 32 -> length callback_data = 4%nat -> cls p = Callback_class ->
  forall got replies,
    completes (done_frame id callback_data) got replies ->
    forall (fuel inner : nat) (d : Display) (later : list recv_reply),
      (length replies <= fuel)%nat ->
      event_queue d = [] -> previous_data d = got ->
      id ∉ dead_objects d -> objects d !! id = Some a -> heap d !! a = Some p ->
      to_recv (connection d) = replies ++ later ->
      exists s fds,
        to_recv s = later
        /\ recv_events fuel (S inner) d
           = (Ok tt,
              set_event_queue [Some (a, 0, [VInt (le_uint callback_data)])]
                (set_previous_data []
                   (set_incoming_fds fds (set_connection s d)))).
Proof.
  intros Hid Hbody Hcls got replies Hc.
  induction Hc as [got chunk fds Hne Heq | got replies Hc IH | got chunk fds replies Hc IH];
    intros fuel inner d later Hfuel Hq Hprev Hdead Hlive Hheap Hrecv;
    (destruct fuel as [|fuel]; [simpl in Hfuel; lia |]);
    simpl in Hfuel; simpl recv_events; rewrite Hq; unfold bind.
  - assert (Hlen : len chunk <= 1024).
    { pose proof (done_frame_length id callback_data Hbody) as H12.
      rewrite <- Heq, length_app in H12. unfold len. lia. }
    destruct (recv_delivers utf8_decode unpack_other (S inner) d chunk fds later Hrecv Hne Hlen)
      as (s & Hs & ->).
    unfold try_except.
    rewrite (decode_done inner id callback_data chunk _ a p); try assumption;
      [| simpl; rewrite Hprev; assumption].
    exists s, (incoming_fds d ++ take 16 fds). split; [assumption |].
    simpl. rewrite Hq. destruct fuel; reflexivity.
  - destruct (recv_would_block (S inner) d (replies ++ later) Hrecv) as (s & Hs & ->).
    destruct (IH fuel inner (set_connection s d) later) as (s' & fds' & Hs' & ->);
      try assumption; [lia |].
    exists s', fds'. split; [assumption | reflexivity].
  - destruct (completes_prefix _ _ _ Hc) as (more & Hmore & Hframe).
    destruct (decide (chunk = [])) as [-> | Hne].
    + destruct (recv_nothing (S inner) d fds (replies ++ later) Hrecv) as (s & Hs & ->).
      destruct (IH fuel inner
                  (set_incoming_fds (incoming_fds d ++ take 16 fds) (set_connection s d))
                  later) as (s' & fds' & Hs' & ->);
        try assumption; [lia | simpl; rewrite app_nil_r; assumption |].
      exists s', fds'. split; [assumption | reflexivity].
    + assert (Hlen : len chunk <= 1024).
      { pose proof (done_frame_length id callback_data Hbody) as H12.
        rewrite <- Hframe, !length_app in H12. unfold len. lia. }
      destruct (recv_delivers utf8_decode unpack_other (S inner) d chunk fds (replies ++ later) Hrecv Hne Hlen)
        as (s & Hs & ->).
      unfold try_except.
      rewrite (decode_part_of_done inner id callback_data chunk more);
        try assumption; [| simpl; rewrite Hprev; assumption].
      match goal with
      | |- context [recv_events fuel (S inner) ?x] =>
          destruct (IH fuel inner x later) as (s' & fds' & Hs' & ->);
            try assumption; [lia | simpl; rewrite Hprev; reflexivity |]
      end.
      exists s', fds'. split; [assumption | reflexivity].
Qed.

(** Decoding and receiving leave the sending side of the socket alone. *)
Lemma unpack_event_connection (obj : addr) (op : Z) (data : bytes) (d : Display) :
  connection (unpack_event utf8_decode unpack_other obj op data d).2 = connection d.
Proof.
  unfold unpack_event, bind, deref, get. simpl.
  destruct (cls (default blank (heap d !! obj))).
  - unfold Display_unpack_event, ret, raise. repeat case_match; reflexivity.
  - unfold Registry_unpack_event, ret, raise. repeat case_match; reflexivity.
  - unfold Callback_unpack_event, ret, raise. repeat case_match; reflexivity.
  - unfold with_view.
    destruct (unpack_other _ _ _ _ _) as [o [[objs hp] fds]]. reflexivity.
  - unfold with_view.
    destruct (unpack_other _ _ _ _ _) as [o [[objs hp] fds]]. reflexivity.
Qed.

Lemma decode_loop_connection (fuel : nat) : forall (data : bytes) (d : Display),
  connection (decode_loop fuel data d).2 = connection d.
Proof.
  induction fuel as [|fuel IH]; intros data d.
  - simpl. destruct (len data <? 8); reflexivity.
  - rewrite (decode_loop_S utf8_decode unpack_other). unfold decode_step.
    destruct (len data <? 8); [reflexivity |].
    destruct (len data <? header_size data); [reflexivity |].
    destruct (decide (header_id data ∈ dead_objects d)); [apply IH |].
    destruct (objects d !! header_id data) as [obj|]; [| reflexivity].
    pose proof (unpack_event_connection obj (header_op data)
                  (slice 8 (header_size data) data) d) as Hu.
    destruct (unpack_event utf8_decode unpack_other obj _ _ d) as [[ev | e |] d1];
      simpl in Hu; [| assumption | assumption].
    rewrite IH. simpl. assumption.
Qed.

Lemma decode_connection (fuel : nat) (chunk : bytes) (d : Display) :
  connection (decode fuel chunk d).2 = connection d.
Proof.
  rewrite (decode_buffer utf8_decode unpack_other). unfold bind, modify.
  pose proof (decode_loop_connection fuel (previous_data d ++ chunk) d) as Hl.
  destruct (decode_loop fuel (previous_data d ++ chunk) d) as [[r | e |] d1];
    simpl in *; assumption.
Qed.

Lemma sock_recv_sending_side (s : socket) :
  wire (sock_recv s).2 = wire s /\ to_send (sock_recv s).2 = to_send s.
Proof.
  unfold sock_recv. destruct (to_recv s) as [|[data fds | errno] r]; simpl; auto.
Qed.

Lemma recv_sending_side (fuel : nat) (d : Display) :
  wire (connection (recv fuel d).2) = wire (connection d)
  /\ to_send (connection (recv fuel d).2) = to_send (connection d).
Proof.
  destruct (sock_recv_sending_side (connection d)) as [Hw Hs].
  unfold recv, try_except, bind, recvmsg, on_connection, modify.
  destruct (sock_recv (connection d)) as [[got | e |] s]; simpl in Hw, Hs.
  - destruct (decide (got.1 = [])) as [Hnil | Hdata]; [simpl; auto |].
    match goal with
    | |- context [decode fuel got.1 ?x] =>
        pose proof (decode_connection fuel got.1 x) as Hc;
          destruct (decode fuel got.1 x) as [[[] | e |] d1]
    end; simpl in Hc; [simpl; rewrite Hc; auto | | simpl; rewrite Hc; auto].
    destruct e as [| | | | | | | | | errno |]; try (simpl; rewrite Hc; auto).
    destruct (decide (errno = Some 11)); simpl; rewrite Hc; auto.
  - destruct e as [| | | | | | | | | errno |]; simpl; auto.
    destruct (decide (errno = Some 11)); simpl; auto.
  - simpl. auto.
Qed.

Lemma recv_events_sending_side (inner fuel : nat) : forall d : Display,
  wire (connection (recv_events fuel inner d).2) = wire (connection d)
  /\ to_send (connection (recv_events fuel inner d).2) = to_send (connection d).
Proof.
  induction fuel as [|fuel IH]; intros d; simpl.
  - destruct (event_queue d); auto.
  - destruct (event_queue d); [| auto]. unfold bind.
    destruct (recv_sending_side inner d) as [Hw Hs].
    destruct (recv inner d) as [[[] | e |] d1]; simpl in Hw, Hs; [| auto | auto].
    destruct (IH d1) as [Hw1 Hs1]. rewrite Hw1, Hs1. auto.
Qed.


End Roundtrip.



(** * Further properties *)

(** ** The allocator, in full *)

Lemma set_open_ids_same (d : Display) : open_ids d = [] -> set_open_ids [] d = d.
Proof. destruct d; simpl; intros ->; reflexivity. Qed.

(** Ids on the free list are handed out first and oldest first; the
    counter is drawn from only when the list is empty. *)
Theorem next_id_reuses_first (n : nat) (d : Display) :
  issued n d
  = take n (open_ids d)
    ++ issued (n - length (open_ids d)) (set_open_ids [] d).
Proof.
  revert d. induction n as [|n IH]; intros d.
  - destruct (open_ids d); reflexivity.
  - destruct (open_ids d) as [|i rest] eqn:E.
    + simpl. rewrite set_open_ids_same by assumption. reflexivity.
    + simpl. unfold next_id at 1. rewrite E.
      rewrite IH. simpl. reflexivity.
Qed.

Lemma set_ids_same (d : Display) : set_ids (ids d) d = d.
Proof. destruct d; reflexivity. Qed.

Lemma issued_counter (n : nat) (d : Display) :
  open_ids d = [] -> ids d <= 0xffffffff ->
  issued n d
  = (fun i => ids d + Z.of_nat i)
      <$> seq 0 (min n (Z.to_nat (0xffffffff - ids d))).
Proof.
  revert d. induction n as [|n IH]; intros d Hfree Hle; [reflexivity |].
  simpl issued. destruct (Z.lt_ge_cases (ids d) 0xffffffff) as [Hlt | Hge].
  - rewrite next_id_counter by assumption.
    rewrite IH by (simpl; assumption || lia). simpl ids.
    replace (Z.to_nat (0xffffffff - ids d))
      with (S (Z.to_nat (0xffffffff - (ids d + 1)))) by lia.
    simpl. f_equal; [lia |].
    rewrite <- fmap_S_seq, <- list_fmap_compose.
    apply list_fmap_ext. intros _ i _. simpl. lia.
  - rewrite next_id_exhausted by assumption.
    rewrite IH by assumption.
    replace (Z.to_nat (0xffffffff - ids d)) with 0%nat by lia.
    rewrite !Nat.min_0_r. reflexivity.
Qed.

(** With an empty free list, of [n] successive calls of [next_id] the first
    ones return the counter's next values one by one, up to 0xfffffffe; every
    call after that raises StopIteration and leaves the state as it is.  The
    ids issued are those values and no other. *)
Theorem next_id_counts_to_limit (n : nat) (d : Display) :
  open_ids d = [] -> ids d <= 0xffffffff ->
  let m := min n (Z.to_nat (0xffffffff - ids d)) in
  next_id_calls n d
  = (((fun i => Ok (ids d + Z.of_nat i)) <$> seq 0 m)
       ++ replicate (n - m) (Raise StopIteration),
     set_ids (ids d + Z.of_nat m) d)
  /\ issued n d = (fun i => ids d + Z.of_nat i) <$> seq 0 m.
Proof.
  intros Hfree Hle. split; [| apply issued_counter; assumption].
  revert d Hfree Hle. induction n as [|n IH]; intros d Hfree Hle.
  - simpl. rewrite Z.add_0_r, set_ids_same. reflexivity.
  - simpl next_id_calls.
    destruct (Z.lt_ge_cases (ids d) 0xffffffff) as [Hlt | Hge].
    + rewrite next_id_counter by assumption.
      rewrite IH by (simpl; assumption || lia). simpl ids.
      replace (Z.to_nat (0xffffffff - ids d))
        with (S (Z.to_nat (0xffffffff - (ids d + 1)))) by lia.
      rewrite <- Nat.succ_min_distr.
      set (m := min n (Z.to_nat (0xffffffff - (ids d + 1)))).
      replace (S n - S m)%nat with (n - m)%nat by lia.
      f_equal.
      * cbn [seq fmap list_fmap]. rewrite <- app_comm_cons. f_equal.
        { f_equal. lia. }
        f_equal. rewrite <- fmap_S_seq, <- list_fmap_compose.
        apply list_fmap_ext. intros _ i _. simpl. f_equal. lia.
      * destruct d; unfold set_ids; simpl. f_equal. lia.
    + rewrite next_id_exhausted by assumption.
      rewrite IH by assumption.
      replace (Z.to_nat (0xffffffff - ids d)) with 0%nat by lia.
      rewrite !Nat.min_0_r, !Nat.sub_0_r. reflexivity.
Qed.

Lemma next_id_counts_to_limit_witness :
  let d := set_ids 0xfffffffd (Display_new Sample.quiet ∅) in
  let m := min 5 (Z.to_nat (0xffffffff - ids d)) in
  next_id_calls 5 d
  = (((fun i => Ok (ids d + Z.of_nat i)) <$> seq 0 m)
       ++ replicate (5 - m) (Raise StopIteration),
     set_ids (ids d + Z.of_nat m) d)
  /\ issued 5 d = (fun i => ids d + Z.of_nat i) <$> seq 0 m.
Proof.
  apply (next_id_counts_to_limit 5
           (set_ids 0xfffffffd (Display_new Sample.quiet ∅))).
  - reflexivity.
  - simpl. lia.
Defined.

(** ** Acknowledged deletion, by cases *)

Lemma remove_first_appended `{EqDecision A} (x : A) (l : list A) :
  exists l', remove_first x (l ++ [x]) = Some l' /\ l' ≡ₚ l.
Proof.
  induction l as [|y r IH]; simpl.
  - destruct (decide (x = x)); [| congruence]. eauto.
  - destruct (decide (x = y)) as [-> | Hne].
    + exists (r ++ [y]). split; [reflexivity |].
      rewrite Permutation_app_comm. reflexivity.
    + destruct IH as (r' & -> & Hperm). exists (y :: r'). split; [reflexivity |].
      rewrite Hperm. reflexivity.
Qed.

Lemma remove_first_none `{EqDecision A} (x : A) (l : list A) :
  remove_first x l = None <-> x ∉ l.
Proof.
  induction l as [|y r IH]; simpl.
  - split; [intros _; apply not_elem_of_nil | reflexivity].
  - destruct (decide (x = y)) as [-> | Hne].
    + split; [discriminate | intros H; exfalso; apply H; left].
    + rewrite not_elem_of_cons. destruct (remove_first x r).
      * split; [discriminate |]. intros [_ H]. apply IH in H. discriminate.
      * split; [| reflexivity]. intros _. split; [assumption | apply IH; reflexivity].
Qed.

Lemma handle_delete_id_acknowledges (obj : Z) (a : addr) (d : Display) :
  objects d !! obj = Some a ->
  exists dead,
    handle_delete_id obj d
    = (Ok tt, set_objects (delete obj (objects d)) (set_dead_objects dead d))
    /\ dead ≡ₚ dead_objects d.
Proof.
  intros Hlive.
  destruct (remove_first_appended obj (dead_objects d)) as (dead & Hrem & Hperm).
  exists dead. split; [| assumption].
  unfold handle_delete_id, bind, get, modify, remove_object. rewrite Hlive. simpl.
  rewrite Hrem. simpl. rewrite Hlive. reflexivity.
Qed.

(** The acknowledgment of an id of the object table returns normally and
    takes the id out of the table; the dead list keeps the entries it had,
    the acknowledged id among them if it was fenced. *)
Theorem handle_delete_id_live (obj : Z) (a : addr) (d : Display) :
  objects d !! obj = Some a ->
  exists dead,
    handle_delete_id obj d
    = (Ok tt, set_objects (delete obj (objects d)) (set_dead_objects dead d))
    /\ dead ≡ₚ dead_objects d.
Proof.
  intros Hlive. apply (handle_delete_id_acknowledges obj a d Hlive).
Qed.

Lemma handle_delete_id_live_witness :
  exists dead,
    handle_delete_id 2 pending_delete
    = (Ok tt, set_objects (delete 2 (objects pending_delete))
                (set_dead_objects dead pending_delete))
    /\ dead ≡ₚ dead_objects pending_delete.
Proof.
  apply (handle_delete_id_live 2 1%nat pending_delete). reflexivity.
Defined.

(** The acknowledgment of an id that is not in the object table raises:
    ValueError, with nothing changed, when the id is not fenced either;
    KeyError, after one occurrence has left the dead list, when it is. *)
Theorem handle_delete_id_unknown (obj : Z) (d : Display) :
  objects d !! obj = None ->
  (obj ∉ dead_objects d -> handle_delete_id obj d = (Raise ValueError, d))
  /\ (obj ∈ dead_objects d ->
      exists dead,
        remove_first obj (dead_objects d) = Some dead
        /\ handle_delete_id obj d = (Raise KeyError, set_dead_objects dead d)).
Proof.
  intros Hnone. unfold handle_delete_id, bind, get, modify. rewrite Hnone. simpl.
  split; intros Hdead.
  - apply remove_first_none in Hdead. rewrite Hdead. reflexivity.
  - destruct (remove_first obj (dead_objects d)) as [dead|] eqn:E.
    + exists dead. split; [reflexivity |]. simpl. rewrite Hnone. reflexivity.
    + apply remove_first_none in E. contradiction.
Qed.

Lemma handle_delete_id_unknown_witness :
  (5 ∉ dead_objects pending_delete ->
   handle_delete_id 5 pending_delete = (Raise ValueError, pending_delete))
  /\ (5 ∈ dead_objects pending_delete ->
      exists dead,
        remove_first 5 (dead_objects pending_delete) = Some dead
        /\ handle_delete_id 5 pending_delete
           = (Raise KeyError, set_dead_objects dead pending_delete)).
Proof.
  apply (handle_delete_id_unknown 5 pending_delete). reflexivity.
Defined.

(** ** Ids of live objects *)

Section Freshness.

Variable pack_arguments : proxy -> Z -> list value -> bytes.

Lemma creator_spec (self : addr) (fd size : Z)
    (create : M addr) (d : Display) :
  create ∈ creators pack_arguments self fd size ->
  fresh_ids d ->
  objects d !! ids d = None
  /\ (ids d < 0xffffffff ->
      exists d' c,
        create d = (Ok (length (heap d)), d')
        /\ objects d' = <[ids d := length (heap d)]> (objects d)
        /\ heap d' = heap d ++ [new_proxy c (ids d)]
        /\ length (out_queue d') = S (length (out_queue d))
        /\ dead_objects d' = dead_objects d
        /\ fresh_ids d')
  /\ (0xffffffff <= ids d -> create d = (Raise StopIteration, d)).
Proof.
  intros Hin [Hfree Hbelow].
  assert (Hunused : objects d !! ids d = None).
  { destruct (objects d !! ids d) as [a|] eqn:E; [| reflexivity].
    apply Hbelow in E. lia. }
  assert (Hkeep : forall a,
            open_ids d = [] ->
            forall id b, <[ids d := a]> (objects d) !! id = Some b -> id < ids d + 1).
  { intros a _ id b. rewrite lookup_insert. case_decide.
    - intros _. lia.
    - intros E. apply Hbelow in E. lia. }
  split; [assumption |].
  unfold creators in Hin. rewrite !elem_of_cons in Hin.
  destruct Hin as [-> | [-> | [-> | [-> | [-> | Hin]]]]];
    [| | | | | apply elem_of_nil in Hin; contradiction];
    (split; [intros Hlt | intros Hge]);
    unfold sync, get_registry, Compositor_create_region, Shm_create_pool,
      Surface_frame, enqueue, enqueue_with, bind, alloc, modify, deref, get, ret;
    try (rewrite next_id_counter by assumption; simpl;
         eexists; eexists; split; [reflexivity |]; simpl;
         split; [reflexivity |]; split; [reflexivity |];
         split; [rewrite length_app; simpl; lia |];
         split; [reflexivity |];
         split; [assumption | apply Hkeep; assumption]);
    try (rewrite next_id_exhausted by assumption; reflexivity).
Qed.

(** A request that creates an object registers the new proxy under the
    counter's next id, which no live object has; it queues one request and
    fences nothing.  With the counter used up it raises StopIteration and
    changes nothing. *)
Theorem creator_registers_unused_id (self : addr) (fd size : Z)
    (create : M addr) (d : Display) :
  create ∈ creators pack_arguments self fd size ->
  fresh_ids d ->
  objects d !! ids d = None
  /\ (ids d < 0xffffffff ->
      exists d' c,
        create d = (Ok (length (heap d)), d')
        /\ objects d' = <[ids d := length (heap d)]> (objects d)
        /\ heap d' = heap d ++ [new_proxy c (ids d)]
        /\ length (out_queue d') = S (length (out_queue d))
        /\ dead_objects d' = dead_objects d
        /\ fresh_ids d')
  /\ (0xffffffff <= ids d -> create d = (Raise StopIteration, d)).
Proof.
  intros Hin Hfresh. apply (creator_spec self fd size create d Hin Hfresh).
Qed.

End Freshness.

Lemma creator_registers_unused_id_witness :
  objects (Sample.fresh ∅) !! ids (Sample.fresh ∅) = None
  /\ (ids (Sample.fresh ∅) < 0xffffffff ->
      exists d' c,
        Shm_create_pool Sample.pack_arguments 0%nat 7 4096 (Sample.fresh ∅)
        = (Ok (length (heap (Sample.fresh ∅))), d')
        /\ objects d'
           = <[ids (Sample.fresh ∅) := length (heap (Sample.fresh ∅))]>
               (objects (Sample.fresh ∅))
        /\ heap d' = heap (Sample.fresh ∅) ++ [new_proxy c (ids (Sample.fresh ∅))]
        /\ length (out_queue d') = S (length (out_queue (Sample.fresh ∅)))
        /\ dead_objects d' = dead_objects (Sample.fresh ∅)
        /\ fresh_ids d')
  /\ (0xffffffff <= ids (Sample.fresh ∅) ->
      Shm_create_pool Sample.pack_arguments 0%nat 7 4096 (Sample.fresh ∅)
      = (Raise StopIteration, Sample.fresh ∅)).
Proof.
  apply (creator_registers_unused_id Sample.pack_arguments 0%nat 7 4096
           (Shm_create_pool Sample.pack_arguments 0%nat 7 4096) (Sample.fresh ∅)).
  - unfold creators. rewrite !elem_of_cons. do 3 right. left. reflexivity.
  - split; [reflexivity |]. intros id a. simpl.
    rewrite lookup_singleton. case_decide; [intros _; lia | discriminate].
Defined.

(** ** What [flush] leaves alone *)

Lemma sendmsg_frame (data : bytes) (fds : list Z) (d : Display) :
  (sendmsg data fds d).2 = set_connection (connection (sendmsg data fds d).2) d
  /\ to_recv (connection (sendmsg data fds d).2) = to_recv (connection d)
  /\ closed (connection (sendmsg data fds d).2) = closed (connection d).
Proof.
  unfold sendmsg, on_connection, sock_send.
  destruct (to_send (connection d)) as [|[k | e] later]; simpl;
    repeat split; apply set_connection_same.
Qed.

Lemma send_rest_frame (fuel : nat) : forall (data : bytes) (sent : Z) (d : Display),
  (send_rest fuel data sent d).2
  = set_connection (connection (send_rest fuel data sent d).2) d
  /\ to_recv (connection (send_rest fuel data sent d).2) = to_recv (connection d)
  /\ closed (connection (send_rest fuel data sent d).2) = closed (connection d).
Proof.
  induction fuel as [|fuel IH]; intros data sent d; simpl.
  - destruct (sent <? len data); simpl; repeat split; apply set_connection_same.
  - destruct (sent <? len data); simpl;
      [| repeat split; apply set_connection_same].
    unfold send.
    pose proof (sendmsg_frame (slice_from sent data) [] d) as (Hd & Hr & Hc).
    unfold sendmsg in Hd, Hr, Hc.
    destruct (on_connection (sock_send (slice_from sent data) []) d)
      as [[k | e |] d1]; simpl in *; [| auto | auto].
    destruct (IH data (sent + k) d1) as (Hd' & Hr' & Hc').
    split; [rewrite Hd' at 1; rewrite Hd; reflexivity |].
    split; congruence.
Qed.

Lemma flush_frame (fuel : nat) (d : Display) :
  (flush fuel d).2
  = set_out_queue (out_queue (flush fuel d).2)
      (set_connection (connection (flush fuel d).2) d)
  /\ out_queue (flush fuel d).2 `suffix_of` out_queue d
  /\ to_recv (connection (flush fuel d).2) = to_recv (connection d)
  /\ closed (connection (flush fuel d).2) = closed (connection d).
Proof.
  assert (Hidle : forall d' : Display,
            d' = set_out_queue (out_queue d') (set_connection (connection d') d')
            /\ out_queue d' `suffix_of` out_queue d'
            /\ to_recv (connection d') = to_recv (connection d')
            /\ closed (connection d') = closed (connection d')).
  { intros d'. split; [destruct d'; reflexivity |]. repeat split; reflexivity. }
  revert d. induction fuel as [|fuel IH]; intros d.
  - assert (H0 : (flush 0 d).2 = d) by (simpl; destruct (out_queue d) as [|[]]; reflexivity).
    rewrite H0. apply Hidle.
  - destruct (out_queue d) as [|[data fds] rest] eqn:Q.
    { assert (H0 : (flush (S fuel) d).2 = d) by (simpl; rewrite Q; reflexivity).
      rewrite H0, <- Q. apply Hidle. }
    simpl flush. rewrite Q. unfold bind.
    pose proof (sendmsg_frame data fds (set_out_queue rest d)) as (Hd & Hr & Hc).
    destruct (sendmsg data fds (set_out_queue rest d)) as [[sent | e |] d0];
      simpl in Hd, Hr, Hc.
    + pose proof (send_rest_frame fuel data sent d0) as (Hd1 & Hr1 & Hc1).
      destruct (send_rest fuel data sent d0) as [[[] | e |] d1]; simpl in Hd1, Hr1, Hc1.
      * destruct (IH d1) as (Hf & Hs & Hfr & Hfc).
        assert (Hq1 : out_queue d1 = rest) by (rewrite Hd1, Hd; reflexivity).
        split; [rewrite Hf at 1; rewrite Hd1, Hd; reflexivity |].
        split; [rewrite Hq1 in Hs; apply suffix_cons_r; assumption |].
        split; congruence.
      * assert (Hq1 : out_queue d1 = rest) by (rewrite Hd1, Hd; reflexivity).
        destruct (decide (e = OSError (Some 11))); simpl.
        -- split; [rewrite Hd1 at 2; rewrite Hd; rewrite Hq1; reflexivity |].
           rewrite Hq1. split; [reflexivity |]. split; congruence.
        -- split; [rewrite Hd1 at 1; rewrite Hd; rewrite Hq1; reflexivity |].
           rewrite Hq1. split; [apply suffix_cons_r; reflexivity |]. split; congruence.
      * assert (Hq1 : out_queue d1 = rest) by (rewrite Hd1, Hd; reflexivity).
        simpl. split; [rewrite Hd1 at 1; rewrite Hd; rewrite Hq1; reflexivity |].
        rewrite Hq1. split; [apply suffix_cons_r; reflexivity |]. split; congruence.
    + assert (Hq0 : out_queue d0 = rest) by (rewrite Hd; reflexivity).
      destruct (decide (e = OSError (Some 11))); simpl.
      * split; [rewrite Hd at 2; rewrite Hq0; reflexivity |].
        rewrite Hq0. split; [reflexivity |]. split; assumption.
      * split; [rewrite Hd at 1; rewrite Hq0; reflexivity |].
        rewrite Hq0. split; [apply suffix_cons_r; reflexivity |]. split; assumption.
    + assert (Hq0 : out_queue d0 = rest) by (rewrite Hd; reflexivity).
      simpl. split; [rewrite Hd at 1; rewrite Hq0; reflexivity |].
      rewrite Hq0. split; [apply suffix_cons_r; reflexivity |]. split; assumption.
Qed.

(** A call of [flush] changes the socket's sending side and the outbound
    queue and nothing else; the queue it leaves is what was at the back of
    the queue it found: nothing is added, nothing is reordered. *)
Theorem flush_touches_queue_and_socket (fuel : nat) (d : Display) :
  (flush fuel d).2
  = set_out_queue (out_queue (flush fuel d).2)
      (set_connection (connection (flush fuel d).2) d)
  /\ out_queue (flush fuel d).2 `suffix_of` out_queue d
  /\ to_recv (connection (flush fuel d).2) = to_recv (connection d)
  /\ closed (connection (flush fuel d).2) = closed (connection d).
Proof.
  revert d. exact (flush_frame fuel).
Qed.

(** ** An invariant of the registry *)

Section Invariant.

Variable pack_arguments : proxy -> Z -> list value -> bytes.

Lemma fresh_ids_step (d d' : Display) :
  open_ids d' = open_ids d -> ids d <= ids d' ->
  (forall id a, objects d' !! id = Some a ->
                is_Some (objects d !! id) \/ id < ids d') ->
  fresh_ids d -> fresh_ids d'.
Proof.
  intros Ho Hi Hobj [Hfree Hbelow]. split; [congruence |].
  intros id a Hl. destruct (Hobj id a Hl) as [[b Hb] | Hlt]; [| assumption].
  apply Hbelow in Hb. lia.
Qed.

Lemma next_id_fresh (d : Display) : fresh_ids d -> fresh_ids (next_id d).2.
Proof.
  intros H. pose proof H as [Hfree _].
  destruct (Z.lt_ge_cases (ids d) 0xffffffff).
  - rewrite next_id_counter by assumption.
    eapply fresh_ids_step; [| | | exact H]; simpl; [reflexivity | lia | eauto].
  - rewrite next_id_exhausted by assumption. assumption.
Qed.

Lemma creator_fresh (self : addr) (fd size : Z) (create : M addr) (d : Display) :
  create ∈ creators pack_arguments self fd size ->
  fresh_ids d -> fresh_ids (create d).2.
Proof.
  intros Hin H.
  destruct (creator_spec pack_arguments self fd size create d Hin H)
    as (_ & Hok & Hstop).
  destruct (Z.lt_ge_cases (ids d) 0xffffffff) as [Hlt | Hge].
  - destruct (Hok Hlt) as (d' & c & -> & _ & _ & _ & _ & Hf). assumption.
  - rewrite (Hstop Hge). assumption.
Qed.

Lemma handle_delete_id_fresh (id : Z) (d : Display) :
  fresh_ids d -> fresh_ids (handle_delete_id id d).2.
Proof.
  intros H. destruct (handle_delete_id_allocator id d) as [Ho Hi].
  eapply fresh_ids_step; [exact Ho | lia | | exact H].
  intros k a. unfold handle_delete_id, bind, get, modify, remove_object, raise, ret.
  destruct (objects d !! id) as [b|] eqn:Hlive; simpl.
  - destruct (remove_first id (dead_objects d ++ [id])); simpl.
    + rewrite Hlive. simpl. rewrite lookup_delete. case_decide; [discriminate | eauto].
    + eauto.
  - destruct (remove_first id (dead_objects d)); simpl.
    + rewrite Hlive. simpl. eauto.
    + eauto.
Qed.

Lemma handle_global_fresh (self : addr) (name : Z) (interface : string)
    (version : Z) (d : Display) :
  fresh_ids d ->
  fresh_ids (handle_global pack_arguments self name interface version d).2.
Proof.
  intros H. pose proof H as [Hfree Hbelow].
  unfold handle_global, bind, get. simpl.
  destruct (global_templates d !! interface) as [template|]; [| assumption].
  destruct (Z.lt_ge_cases (ids d) 0xffffffff) as [Hlt | Hge];
    [| rewrite next_id_exhausted by assumption; assumption].
  rewrite next_id_counter by assumption.
  unfold enqueue, update, alloc, modify, deref, get, bind, raise. simpl.
  assert (Hins : forall (a : addr) k b,
            <[ids d := a]> (objects d) !! k = Some b ->
            is_Some (objects d !! k) \/ k < ids d + 1).
  { intros a k b. rewrite lookup_insert. case_decide; [intros _; right; lia | eauto]. }
  destruct (globals d !! interface) as [[a | l]|]; simpl.
  - case_decide; simpl; (eapply fresh_ids_step; [| | | exact H]);
      simpl; try reflexivity; try lia; eauto.
  - eapply fresh_ids_step; [| | | exact H]; simpl; try reflexivity; try lia; eauto.
  - eapply fresh_ids_step; [| | | exact H]; simpl; try reflexivity; try lia; eauto.
Qed.

Lemma perform_fresh (d : Display) (op : operation) :
  fresh_ids d -> fresh_ids (perform pack_arguments d op).
Proof.
  intros H.
  assert (Hcreate : forall self fd size create,
            create ∈ creators pack_arguments self fd size ->
            fresh_ids (create d).2).
  { intros. eapply creator_fresh; eassumption. }
  destruct op as [| self | self | self | self fd size | self | self | self
                 | id | id | self name interface version | fuel]; simpl.
  - apply next_id_fresh, H.
  - apply (Hcreate self 0 0). unfold creators. rewrite !elem_of_cons. auto.
  - apply (Hcreate self 0 0). unfold creators. rewrite !elem_of_cons. auto.
  - apply (Hcreate self 0 0). unfold creators. rewrite !elem_of_cons. auto 6.
  - apply (Hcreate self fd size). unfold creators. rewrite !elem_of_cons. auto 6.
  - apply (Hcreate self 0 0). unfold creators. rewrite !elem_of_cons. auto 7.
  - eapply fresh_ids_step; [| | | exact H]; simpl; try reflexivity; try lia; eauto.
  - eapply fresh_ids_step; [| | | exact H]; simpl; try reflexivity; try lia; eauto.
  - eapply fresh_ids_step; [| | | exact H]; simpl; try reflexivity; try lia; eauto.
  - apply handle_delete_id_fresh, H.
  - apply handle_global_fresh, H.
  - destruct (flush_frame fuel d) as (-> & _).
    eapply fresh_ids_step; [| | | exact H]; simpl; try reflexivity; try lia; eauto.
Qed.

(** Once the free list is empty and every id of the object table is below
    the counter, this stays so whatever requests are made, globals
    announced, deletions acknowledged and flushes done, and whether these
    calls return or raise; so the next id issued is the id of no live
    object. *)
Theorem registry_ids_stay_fresh (d0 : Display) (ops : list operation) :
  fresh_ids d0 ->
  let d := foldl (perform pack_arguments) d0 ops in
  fresh_ids d /\ objects d !! ids d = None.
Proof.
  intros H0.
  assert (H : fresh_ids (foldl (perform pack_arguments) d0 ops)).
  { rewrite <- (reverse_involutive ops). induction (reverse ops) as [|op r IH].
    - exact H0.
    - rewrite reverse_cons, foldl_app. simpl. apply perform_fresh, IH. }
  simpl. split; [assumption |].
  destruct H as [_ Hbelow].
  destruct (objects _ !! ids _) as [a|] eqn:E; [| reflexivity].
  apply Hbelow in E. lia.
Qed.

End Invariant.

Lemma registry_ids_stay_fresh_witness :
  let d := foldl (perform Sample.pack_arguments) (Sample.fresh ∅)
             [Op_create_region 0%nat; Op_region_destroy 1%nat; Op_delete_id 2;
              Op_create_pool 0%nat 7 4096; Op_flush 3] in
  fresh_ids d /\ objects d !! ids d = None.
Proof.
  apply (registry_ids_stay_fresh Sample.pack_arguments (Sample.fresh ∅)
           [Op_create_region 0%nat; Op_region_destroy 1%nat; Op_delete_id 2;
            Op_create_pool 0%nat 7 4096; Op_flush 3]).
  split; [reflexivity |]. intros id a. simpl.
  intros [<- _]%lookup_singleton_Some. lia.
Defined.

(** ** Binding and unbinding globals *)

Section Globals.

Variable pack_arguments : proxy -> Z -> list value -> bytes.
Variable remove_obj : Z -> M unit.

Lemma handle_global_spec (self : addr) (name : Z) (interface : string)
    (version : Z) (d : Display) (template : pyclass) (reg : proxy) :
  global_templates d !! interface = Some template ->
  open_ids d = [] -> ids d < 0xffffffff ->
  heap d !! self = Some reg ->
  (forall a, globals d !! interface = Some (Single a) ->
             exists p, heap d !! a = Some p /\ cls p = template) ->
  handle_global pack_arguments self name interface version d
  = (Ok tt,
     set_objects (<[ids d := length (heap d)]> (objects d))
       (set_globals
          (<[interface := announced (globals d !! interface) (length (heap d))]>
             (globals d))
          (set_heap
             (alter (set_global_object name (ids d)) self (heap d)
              ++ [new_proxy template (ids d)])
             (set_out_queue
                (out_queue d
                 ++ [(pack_arguments reg 0
                        [VInt name; VStr interface; VInt version; VInt (ids d)],
                      [])])
                (set_ids (ids d + 1) d))))).
Proof.
  intros Htemplate Hfree Hlt Hreg Hslot.
  unfold handle_global, bind, get. simpl. rewrite Htemplate.
  rewrite next_id_counter by assumption.
  unfold enqueue, update, alloc, modify, deref, get, bind, raise. simpl.
  rewrite Hreg. simpl. rewrite !length_alter.
  destruct (globals d !! interface) as [[a | l]|] eqn:Hg; simpl; [| reflexivity | reflexivity].
  destruct (Hslot a eq_refl) as (p & Hp & Hcls).
  assert (Hlook : (alter (set_global_object name (ids d)) self (heap d)
                   ++ [new_proxy template (ids d)]) !! a
                  = Some (if decide (self = a)
                          then set_global_object name (ids d) p else p)).
  { rewrite lookup_app_l by (rewrite length_alter; eapply lookup_lt_Some; eassumption).
    rewrite list_lookup_alter.
    destruct (decide (self = a)) as [-> | Hne]; rewrite Hp; reflexivity. }
  rewrite Hlook. simpl.
  assert (Hsame : cls (if decide (self = a)
                       then set_global_object name (ids d) p else p) = template).
  { case_decide; assumption. }
  destruct (decide (cls _ = template)); [reflexivity | contradiction].
Qed.

(** The announcement of a global whose interface has a template: one id is
    drawn, one bind request with the name and the new id is queued, the
    registry records the name, and the new proxy is registered and added to
    the entry of the interface: alone, or behind the proxies bound before,
    in the order of the announcements. *)
Theorem handle_global_binds (self : addr) (name : Z) (interface : string)
    (version : Z) (d : Display) (template : pyclass) (reg : proxy) :
  global_templates d !! interface = Some template ->
  open_ids d = [] -> ids d < 0xffffffff ->
  heap d !! self = Some reg ->
  (forall a, globals d !! interface = Some (Single a) ->
             exists p, heap d !! a = Some p /\ cls p = template) ->
  handle_global pack_arguments self name interface version d
  = (Ok tt,
     set_objects (<[ids d := length (heap d)]> (objects d))
       (set_globals
          (<[interface := announced (globals d !! interface) (length (heap d))]>
             (globals d))
          (set_heap
             (alter (set_global_object name (ids d)) self (heap d)
              ++ [new_proxy template (ids d)])
             (set_out_queue
                (out_queue d
                 ++ [(pack_arguments reg 0
                        [VInt name; VStr interface; VInt version; VInt (ids d)],
                      [])])
                (set_ids (ids d + 1) d))))).
Proof.
  intros Htemplate Hfree Hlt Hreg Hslot.
  apply handle_global_spec; assumption.
Qed.

Lemma remove_first_fresh `{EqDecision A} (x : A) (l : list A) :
  x ∉ l -> remove_first x (l ++ [x]) = Some l.
Proof.
  induction l as [|y r IH]; simpl; intros Hnot.
  - destruct (decide (x = x)); [reflexivity | congruence].
  - apply not_elem_of_cons in Hnot as [Hne Hnot].
    destruct (decide (x = y)); [contradiction |]. rewrite IH by assumption. reflexivity.
Qed.

(** The removal of a global that has just been announced puts the entry of
    its interface back as it was (absent, one proxy, or the list of the
    proxies bound before) and ends in the call of [remove_obj] on the id
    bound; the proxy stays in the object table and the bind request in the
    queue. *)
Theorem handle_global_remove_undoes_binding (self : addr) (name : Z)
    (interface : string) (version : Z) (d : Display)
    (template : pyclass) (reg : proxy) :
  global_templates d !! interface = Some template ->
  class_interface template = Some interface ->
  open_ids d = [] -> ids d < 0xffffffff ->
  heap d !! self = Some reg ->
  match globals d !! interface with
  | None => True
  | Some (Single a) => exists p, heap d !! a = Some p /\ cls p = template
  | Some (Many l) =>
      (2 <= length l)%nat /\ Forall (fun a => (a < length (heap d))%nat) l
  end ->
  exists d',
    (let* _ := handle_global pack_arguments self name interface version in
     handle_global_remove remove_obj self name) d
    = remove_obj (ids d) d'
    /\ globals d' = globals d
    /\ objects d' = <[ids d := length (heap d)]> (objects d)
    /\ length (out_queue d') = S (length (out_queue d))
    /\ dead_objects d' = dead_objects d.
Proof.
  intros Htemplate Hiface Hfree Hlt Hreg Hslot.
  assert (Hself : (self < length (heap d))%nat) by (eapply lookup_lt_Some; eassumption).
  unfold bind at 1.
  rewrite (handle_global_spec self name interface version d template reg);
    try assumption.
  2: { intros a Ha. rewrite Ha in Hslot. assumption. }
  unfold handle_global_remove, bind, deref, get, modify, raise, ret. simpl.
  rewrite lookup_app_l by (rewrite length_alter; assumption).
  rewrite list_lookup_alter_eq, Hreg. simpl.
  rewrite lookup_insert_eq. simpl. rewrite lookup_insert_eq. simpl.
  rewrite (list_lookup_middle _ [] _ (length (heap d)))
    by (rewrite length_alter; reflexivity).
  simpl. rewrite Hiface. simpl. rewrite lookup_insert_eq.
  destruct (globals d !! interface) as [[a | l]|] eqn:Hg; simpl.
  - destruct Hslot as (p & Hp & _).
    assert (Hne : a <> length (heap d)).
    { apply lookup_lt_Some in Hp. lia. }
    destruct (decide (length (heap d) = a)); [congruence |].
    destruct (decide (length (heap d) = length (heap d))); [| congruence].
    simpl. eexists. split; [reflexivity |]. simpl.
    split; [rewrite insert_insert_eq; apply insert_id; assumption |].
    split; [reflexivity |].
    split; [rewrite length_app; simpl; lia | reflexivity].
  - destruct Hslot as [Hlen Hall].
    rewrite remove_first_fresh.
    2: { intros Hin. rewrite Forall_forall in Hall. apply Hall in Hin. lia. }
    destruct l as [|a [|b l]]; simpl in Hlen; try lia.
    simpl. eexists. split; [reflexivity |]. simpl.
    split; [rewrite insert_insert_eq; apply insert_id; assumption |].
    split; [reflexivity |].
    split; [rewrite length_app; simpl; lia | reflexivity].
  - destruct (decide (length (heap d) = length (heap d))); [| congruence].
    simpl. eexists. split; [reflexivity |]. simpl.
    split; [apply delete_insert_id; assumption |].
    split; [reflexivity |].
    split; [rewrite length_app; simpl; lia | reflexivity].
Qed.

End Globals.

Lemma handle_global_binds_witness :
  let d := (get_registry Sample.pack_arguments 0%nat
              (Sample.fresh {["wl_compositor" := compositor]})).2 in
  handle_global Sample.pack_arguments 1%nat 10 "wl_compositor" 4 d
  = (Ok tt,
     set_objects (<[ids d := length (heap d)]> (objects d))
       (set_globals
          (<["wl_compositor" := announced (globals d !! "wl_compositor") (length (heap d))]>
             (globals d))
          (set_heap
             (alter (set_global_object 10 (ids d)) 1%nat (heap d)
              ++ [new_proxy compositor (ids d)])
             (set_out_queue
                (out_queue d
                 ++ [(Sample.pack_arguments (new_proxy Registry_class 2) 0
                        [VInt 10; VStr "wl_compositor"; VInt 4; VInt (ids d)],
                      [])])
                (set_ids (ids d + 1) d))))).
Proof.
  apply (handle_global_binds Sample.pack_arguments 1%nat 10 "wl_compositor" 4
           (get_registry Sample.pack_arguments 0%nat
              (Sample.fresh {["wl_compositor" := compositor]})).2
           compositor (new_proxy Registry_class 2)).
  - vm_compute. reflexivity.
  - reflexivity.
  - simpl. lia.
  - reflexivity.
  - intros a H. vm_compute in H. discriminate H.
Defined.

Lemma handle_global_remove_undoes_binding_witness :
  let d := (get_registry Sample.pack_arguments 0%nat
              (Sample.fresh {["wl_compositor" := compositor]})).2 in
  exists d',
    (let* _ := handle_global Sample.pack_arguments 1%nat 10 "wl_compositor" 4 in
     handle_global_remove remove_object 1%nat 10) d
    = remove_object (ids d) d'
    /\ globals d' = globals d
    /\ objects d' = <[ids d := length (heap d)]> (objects d)
    /\ length (out_queue d') = S (length (out_queue d))
    /\ dead_objects d' = dead_objects d.
Proof.
  apply (handle_global_remove_undoes_binding Sample.pack_arguments remove_object
           1%nat 10 "wl_compositor" 4
           (get_registry Sample.pack_arguments 0%nat
              (Sample.fresh {["wl_compositor" := compositor]})).2
           compositor (new_proxy Registry_class 2)).
  - vm_compute. reflexivity.
  - reflexivity.
  - reflexivity.
  - simpl. lia.
  - reflexivity.
  - vm_compute. exact I.
Defined.

(** ** More on decoding *)

Section Decoder.

Variable utf8_decode : bytes -> option string.
Variable unpack_other : pyclass -> addr -> Z -> bytes -> view -> outcome (option event) * view.

Local Abbreviation decode_loop := (decode_loop utf8_decode unpack_other).
Local Abbreviation decode := (decode utf8_decode unpack_other).
Local Abbreviation unpack_event := (unpack_event utf8_decode unpack_other).
Local Abbreviation decode_chunks := (decode_chunks utf8_decode unpack_other).
Local Abbreviation decode_step := (decode_step utf8_decode unpack_other).

Lemma view_same (d : Display) :
  d = set_incoming_fds (incoming_fds d) (set_heap (heap d) (set_objects (objects d) d)).
Proof. destruct d. reflexivity. Qed.

Lemma unpack_event_frame (obj : addr) (op : Z) (data : bytes) (d : Display) :
  exists objs hp fds,
    (unpack_event obj op data d).2
    = set_incoming_fds fds (set_heap hp (set_objects objs d)).
Proof.
  assert (Hsame : exists objs hp fds,
            d = set_incoming_fds fds (set_heap hp (set_objects objs d))).
  { exists (objects d), (heap d), (incoming_fds d). apply view_same. }
  unfold unpack_event, bind, deref, get. simpl.
  destruct (cls (default blank (heap d !! obj))).
  - unfold Display_unpack_event, ret, raise. repeat case_match; exact Hsame.
  - unfold Registry_unpack_event, ret, raise. repeat case_match; exact Hsame.
  - unfold Callback_unpack_event, ret, raise. repeat case_match; exact Hsame.
  - unfold with_view.
    destruct (unpack_other _ _ _ _ _) as [o [[objs hp] fds]]. simpl. eauto.
  - unfold with_view.
    destruct (unpack_other _ _ _ _ _) as [o [[objs hp] fds]]. simpl. eauto.
Qed.

Lemma decode_loop_frame (fuel : nat) : forall (data : bytes) (d : Display),
  exists new objs hp fds,
    (decode_loop fuel data d).2
    = set_event_queue (event_queue d ++ new)
        (set_incoming_fds fds (set_heap hp (set_objects objs d))).
Proof.
  assert (Hsame : forall d : Display, exists new objs hp fds,
            d = set_event_queue (event_queue d ++ new)
                  (set_incoming_fds fds (set_heap hp (set_objects objs d)))).
  { intros d. exists [], (objects d), (heap d), (incoming_fds d).
    rewrite app_nil_r. destruct d. reflexivity. }
  induction fuel as [|fuel IH]; intros data d.
  - simpl. destruct (len data <? 8); apply Hsame.
  - rewrite decode_loop_S. unfold decode_step.
    destruct (len data <? 8); [apply Hsame |].
    destruct (len data <? header_size data); [apply Hsame |].
    destruct (decide (header_id data ∈ dead_objects d)); [apply IH |].
    destruct (objects d !! header_id data) as [obj|]; [| apply Hsame].
    destruct (unpack_event_frame obj (header_op data)
                (slice 8 (header_size data) data) d) as (objs & hp & fds & Hu).
    destruct (unpack_event obj _ _ d) as [[ev | e |] d1]; simpl in Hu; subst d1.
    + match goal with
      | |- context [decode_loop fuel ?x ?y] =>
          destruct (IH x y) as (new & objs' & hp' & fds' & ->)
      end.
      exists (ev :: new), objs', hp', fds'. simpl. rewrite <- app_assoc. reflexivity.
    + exists [], objs, hp, fds. simpl. rewrite app_nil_r. destruct d. reflexivity.
    + exists [], objs, hp, fds. simpl. rewrite app_nil_r. destruct d. reflexivity.
Qed.

(** A call of [decode] adds events at the back of the queue and may change
    the object table, the heap and the pending descriptors through the
    decoders, and the retained bytes; nothing else.  When it does not return
    normally the retained bytes are those of before the call. *)
Theorem decode_touches_queue_and_view (fuel : nat) (chunk : bytes) (d : Display) :
  exists new objs hp fds kept,
    (decode fuel chunk d).2
    = set_previous_data kept
        (set_event_queue (event_queue d ++ new)
           (set_incoming_fds fds (set_heap hp (set_objects objs d))))
    /\ ((decode fuel chunk d).1 <> Ok tt -> kept = previous_data d).
Proof.
  rewrite decode_buffer. unfold bind, modify.
  destruct (decode_loop_frame fuel (previous_data d ++ chunk) d)
    as (new & objs & hp & fds & H).
  destruct (decode_loop fuel (previous_data d ++ chunk) d) as [[r | e |] d1];
    simpl in *; subst d1.
  - exists new, objs, hp, fds, r. split; [reflexivity | congruence].
  - exists new, objs, hp, fds, (previous_data d). split; [reflexivity | auto].
  - exists new, objs, hp, fds, (previous_data d). split; [reflexivity | auto].
Qed.

Lemma decode_loop_rest (fuel : nat) : forall (data r : bytes) (d d' : Display),
  decode_loop fuel data d = (Ok r, d') ->
  r `suffix_of` data /\ (len r < 8 \/ len r < header_size r).
Proof.
  induction fuel as [|fuel IH]; intros data r d d' H.
  - apply decode_loop_O in H as (Hlen & -> & _). split; [reflexivity | auto].
  - rewrite decode_loop_S in H.
    pose proof (decode_step_stop utf8_decode unpack_other data d) as Hstop.
    assert (Hnext : forall data1 d1, decode_step data d = Next data1 d1 ->
                                     data1 `suffix_of` data).
    { unfold decode_step. intros data1 d1.
      repeat case_match; try discriminate; intros [= <- _];
        unfold slice_from; apply suffix_drop. }
    destruct (decode_step data d) as [| data1 d1 | o d1] eqn:E.
    + injection H as <- <-. split; [reflexivity |]. apply Hstop. reflexivity.
    + apply IH in H as [Hsuf Hinc]. split; [| assumption].
      etransitivity; [exact Hsuf | eapply Hnext; reflexivity].
    + injection H as -> ->. exfalso.
      eapply (decode_step_fails utf8_decode unpack_other). exact E.
Qed.

(** When [decode] returns, the bytes it keeps are the end of the buffer it
    worked on, and they hold no complete frame: fewer than the eight bytes of
    a header, or fewer than the header declares. *)
Theorem decode_keeps_incomplete_tail (fuel : nat) (chunk : bytes) (d d' : Display) :
  decode fuel chunk d = (Ok tt, d') ->
  previous_data d' `suffix_of` previous_data d ++ chunk
  /\ (len (previous_data d') < 8
      \/ len (previous_data d') < header_size (previous_data d')).
Proof.
  intros H. apply decode_ok in H as (r & d1 & Hloop & ->). simpl.
  eapply decode_loop_rest. eassumption.
Qed.

Lemma decode_loop_much_more_fuel (extra fuel : nat) (data r : bytes) (d d' : Display) :
  decode_loop fuel data d = (Ok r, d') ->
  decode_loop (extra + fuel) data d = (Ok r, d').
Proof.
  intros H. induction extra as [|extra IH]; [assumption |].
  apply (decode_loop_more_fuel utf8_decode unpack_other). assumption.
Qed.

(** The loop on [data], then the loop on what it left and [more], is the
    loop on [data ++ more]. *)
Lemma decode_loop_join (n : nat) : forall m data more d r1 d1 r2 d2,
  decode_loop n data d = (Ok r1, d1) ->
  decode_loop m (r1 ++ more) d1 = (Ok r2, d2) ->
  decode_loop (n + m) (data ++ more) d = (Ok r2, d2).
Proof.
  induction n as [|n IH]; intros m data more d r1 d1 r2 d2 H1 H2.
  - apply decode_loop_O in H1 as (_ & -> & ->). assumption.
  - rewrite decode_loop_S in H1.
    pose proof (decode_step_app utf8_decode unpack_other data more d) as Happ.
    destruct (decode_step data d) as [| data1 d' | o d'] eqn:E.
    + injection H1 as <- <-.
      apply (decode_loop_much_more_fuel (S n)) in H2. assumption.
    + change (S n + m)%nat with (S (n + m)). rewrite decode_loop_S.
      destruct (decode_step (data ++ more) d) as [| data2 d'' | o d''].
      * discriminate Happ.
      * destruct Happ as [Hstop | (data1' & [= <- <-] & ->)]; [discriminate |].
        eapply IH; eassumption.
      * destruct Happ as [Hstop | Hfail]; discriminate.
    + injection H1 as -> ->. exfalso.
      eapply (decode_step_fails utf8_decode unpack_other). exact E.
Qed.

Lemma decode_join (n m : nat) (first second : bytes) (d d1 d2 : Display) :
  decode n first d = (Ok tt, d1) ->
  decode m second d1 = (Ok tt, d2) ->
  decode (n + m) (first ++ second) d = (Ok tt, d2).
Proof.
  intros H1 H2.
  apply decode_ok in H1 as (r1 & d1' & Hl1 & ->).
  apply decode_ok in H2 as (r2 & d2' & Hl2 & ->). simpl in Hl2.
  rewrite decode_loop_previous in Hl2.
  destruct (decode_loop m (r1 ++ second) d1') as [o2 d2''] eqn:E2.
  simpl in Hl2. injection Hl2 as -> <-.
  apply decode_ok. exists r2, d2''. split; [| reflexivity].
  rewrite app_assoc. eapply decode_loop_join; eassumption.
Qed.

(** The converse of the chunking property: when the calls of [decode] on
    the chunks of a stream return, one call on the whole stream returns too,
    in the same state (one call has to make the iterations of them all). *)
Theorem decode_chunks_as_one (fuel : nat) (chunk : bytes) (later : list bytes)
    (d d' : Display) :
  decode_chunks fuel (chunk :: later) d = (Ok tt, d') ->
  decode (fuel * S (length later)) (concat (chunk :: later)) d = (Ok tt, d').
Proof.
  revert chunk d. induction later as [|next later IH]; intros chunk d H.
  - simpl in H. unfold bind, ret in H.
    destruct (decode fuel chunk d) as [[[] | e |] d1] eqn:E; try discriminate.
    injection H as <-. simpl. rewrite app_nil_r, Nat.mul_1_r. assumption.
  - change (decode_chunks fuel (chunk :: next :: later) d)
      with ((let* _ := decode fuel chunk in decode_chunks fuel (next :: later)) d) in H.
    unfold bind in H.
    destruct (decode fuel chunk d) as [[[] | e |] d1] eqn:E; try discriminate.
    apply IH in H.
    change (concat (chunk :: next :: later)) with (chunk ++ concat (next :: later)).
    replace (fuel * S (length (next :: later)))%nat
      with (fuel + fuel * S (length later))%nat by (simpl; lia).
    eapply decode_join; eassumption.
Qed.

(** A frame that declares the size 0 and is addressed to an id of the dead
    list is never got past: the loop skips no byte and meets the same frame
    again, whatever the bound on its iterations, and [decode] does not
    return. *)
Theorem decode_zero_size_never_returns (fuel : nat) (chunk : bytes) (d : Display) :
  8 <= len (previous_data d ++ chunk) ->
  header_size (previous_data d ++ chunk) = 0 ->
  header_id (previous_data d ++ chunk) ∈ dead_objects d ->
  decode fuel chunk d = (OutOfFuel, d).
Proof.
  intros H8 Hzero Hdead. rewrite decode_buffer. unfold bind.
  assert (Hloop : decode_loop fuel (previous_data d ++ chunk) d = (OutOfFuel, d)).
  { induction fuel as [|fuel IH].
    - simpl. destruct (Z.ltb_spec (len (previous_data d ++ chunk)) 8); [lia | reflexivity].
    - rewrite (decode_loop_dead utf8_decode unpack_other) by (assumption || lia).
      rewrite Hzero. unfold slice_from. simpl. assumption. }
  rewrite Hloop. reflexivity.
Qed.

End Decoder.

Lemma decode_keeps_incomplete_tail_witness :
  let d' := (decode Sample.utf8_decode Sample.unpack_other 4
               (take 15 two_frames) (Sample.fresh ∅)).2 in
  previous_data d' `suffix_of` previous_data (Sample.fresh ∅) ++ take 15 two_frames
  /\ (len (previous_data d') < 8
      \/ len (previous_data d') < header_size (previous_data d')).
Proof.
  apply (decode_keeps_incomplete_tail Sample.utf8_decode Sample.unpack_other 4
           (take 15 two_frames) (Sample.fresh ∅)).
  vm_compute. reflexivity.
Defined.

Lemma decode_chunks_as_one_witness :
  let chunks := [take 5 two_frames; take 10 (drop 5 two_frames); drop 15 two_frames] in
  decode Sample.utf8_decode Sample.unpack_other (4 * 3) (concat chunks) (Sample.fresh ∅)
  = (Ok tt,
     (decode_chunks Sample.utf8_decode Sample.unpack_other 4 chunks (Sample.fresh ∅)).2).
Proof.
  apply (decode_chunks_as_one Sample.utf8_decode Sample.unpack_other 4
           (take 5 two_frames) [take 10 (drop 5 two_frames); drop 15 two_frames]
           (Sample.fresh ∅)).
  vm_compute. reflexivity.
Defined.

Lemma decode_zero_size_never_returns_witness :
  decode Sample.utf8_decode Sample.unpack_other 1000
    (le_bytes 4 2 ++ le_bytes 4 0) pending_delete
  = (OutOfFuel, pending_delete).
Proof.
  apply (decode_zero_size_never_returns Sample.utf8_decode Sample.unpack_other 1000
           (le_bytes 4 2 ++ le_bytes 4 0) pending_delete).
  - vm_compute. discriminate.
  - reflexivity.
  - vm_compute. constructor.
Defined.

(** ** From the wire to the handlers *)

Section Dispatching.

Variable pack_arguments : proxy -> Z -> list value -> bytes.
Variable utf8_decode : bytes -> option string.
Variable remove_obj : Z -> M unit.
Variable unpack_other : pyclass -> addr -> Z -> bytes -> view -> outcome (option event) * view.
Variable handle_other : pyclass -> addr -> Z -> list value -> M unit.

Local Abbreviation decode := (decode utf8_decode unpack_other).
Local Abbreviation decode_loop := (decode_loop utf8_decode unpack_other).
Local Abbreviation unpack_event := (unpack_event utf8_decode unpack_other).
Local Abbreviation dispatch_pending :=
  (dispatch_pending pack_arguments remove_obj handle_other).

(** [decode] on a buffer that is one frame for a live object. *)
Lemma decode_one_frame (fuel : nat) (data : bytes) (d : Display) (a : addr) :
  previous_data d = [] ->
  8 <= len data -> header_size data = len data ->
  header_id data ∉ dead_objects d -> objects d !! header_id data = Some a ->
  decode (S fuel) data d
  = (let* ev := unpack_event a (header_op data) (drop 8 data) in
     let* _ := modify (fun d1 => set_event_queue (event_queue d1 ++ [ev]) d1) in
     modify (set_previous_data [])) d.
Proof.
  intros Hprev H8 Hsize Hdead Hlive.
  rewrite decode_buffer, Hprev. simpl app. unfold bind at 1.
  rewrite (decode_loop_live utf8_decode unpack_other fuel data d a);
    try assumption; [| lia].
  assert (Hslice : slice 8 (header_size data) data = drop 8 data).
  { unfold slice. simpl. apply take_ge. rewrite length_drop, Hsize. unfold len. lia. }
  assert (Hrest : slice_from (header_size data) data = []).
  { unfold slice_from. apply drop_ge. rewrite Hsize. unfold len. lia. }
  rewrite Hslice, Hrest. unfold bind, modify.
  destruct (unpack_event a (header_op data) (drop 8 data) d) as [[ev | e |] d1];
    try reflexivity.
  rewrite decode_loop_short by (unfold len; simpl; lia). reflexivity.
Qed.

(** A frame for the display or the registry with an opcode that the class
    does not decode is queued as [None]; [dispatch_pending] raises TypeError
    when it comes to it. *)
Theorem unknown_opcode_breaks_dispatch (fuel fuel' : nat) (data : bytes)
    (d : Display) (a : addr) (p : proxy) :
  event_queue d = [] -> previous_data d = [] ->
  8 <= len data -> header_size data = len data ->
  header_id data ∉ dead_objects d -> objects d !! header_id data = Some a ->
  heap d !! a = Some p -> cls p = Display_class \/ cls p = Registry_class ->
  header_op data <> 0 -> header_op data <> 1 ->
  decode (S fuel) data d
  = (Ok tt, set_previous_data [] (set_event_queue [None] d))
  /\ (let* _ := decode (S fuel) data in dispatch_pending (S fuel')) d
     = (Raise TypeError, set_previous_data [] (set_event_queue [] d)).
Proof.
  intros Hq Hprev H8 Hsize Hdead Hlive Hheap Hcls H0 H1.
  assert (Hdecode : decode (S fuel) data d
                    = (Ok tt, set_previous_data [] (set_event_queue [None] d))).
  { rewrite (decode_one_frame fuel data d a) by assumption.
    unfold unpack_event, deref, get, modify, bind. simpl. rewrite Hheap. simpl.
    destruct Hcls as [-> | ->].
    - unfold Display_unpack_event.
      destruct (decide (header_op data = 0)); [contradiction |].
      destruct (decide (header_op data = 1)); [contradiction |].
      unfold ret. rewrite Hq. reflexivity.
    - unfold Registry_unpack_event.
      destruct (decide (header_op data = 0)); [contradiction |].
      destruct (decide (header_op data = 1)); [contradiction |].
      unfold ret. rewrite Hq. reflexivity. }
  split; [assumption |].
  unfold bind at 1. rewrite Hdecode. reflexivity.
Qed.

Lemma handle_delete_id_queue (obj : Z) (d : Display) :
  event_queue (handle_delete_id obj d).2 = event_queue d.
Proof.
  unfold handle_delete_id, bind, get, modify, remove_object, raise, ret.
  destruct (objects d !! obj) as [a|] eqn:Hlive; simpl.
  - destruct (remove_first obj (dead_objects d ++ [obj])); simpl; [| reflexivity].
    rewrite Hlive. reflexivity.
  - destruct (remove_first obj (dead_objects d)); simpl; [| reflexivity].
    rewrite Hlive. reflexivity.
Qed.

(** A frame of twelve bytes with the opcode 1, addressed to the display, is
    the acknowledgment of a deletion: decoding it and dispatching the queue
    is the call of [handle_delete_id] on the word that the frame carries. *)
Theorem delete_id_frame_reaches_handler (fuel fuel' : nat) (data : bytes)
    (d : Display) (a : addr) (p : proxy) :
  event_queue d = [] -> previous_data d = [] ->
  len data = 12 -> header_size data = 12 -> header_op data = 1 ->
  header_id data ∉ dead_objects d -> objects d !! header_id data = Some a ->
  heap d !! a = Some p -> cls p = Display_class ->
  (let* _ := decode (S fuel) data in dispatch_pending (S fuel')) d
  = handle_delete_id (le_uint (drop 8 data))
      (set_previous_data [] (set_event_queue [] d)).
Proof.
  intros Hq Hprev Hlen Hsize Hop Hdead Hlive Hheap Hcls.
  unfold bind at 1.
  rewrite (decode_one_frame fuel data d a); try assumption; try lia.
  unfold unpack_event, deref, get, modify, bind. simpl. rewrite Hheap. simpl.
  rewrite Hcls, Hop. unfold Display_unpack_event. simpl.
  unfold unpack_I.
  destruct (decide (length (drop 8 data) = 4%nat)) as [_ | Hne];
    [| exfalso; apply Hne; rewrite length_drop; unfold len in Hlen; lia].
  unfold ret. simpl. rewrite Hq. simpl. unfold bind, deref, get. simpl.
  rewrite Hheap. simpl. rewrite Hcls. simpl.
  pose proof (handle_delete_id_queue (le_uint (drop 8 data))
                (set_event_queue [] (set_previous_data [] (set_event_queue [None] d))))
    as Hsame.
  change (set_event_queue [] (set_previous_data [] (set_event_queue [None] d)))
    with (set_previous_data [] (set_event_queue [] d)) in Hsame.
  change (set_event_queue [] (set_previous_data []
            (set_event_queue [Some (a, 1, [VInt (le_uint (drop 8 data))])] d)))
    with (set_previous_data [] (set_event_queue [] d)).
  destruct (handle_delete_id _ _) as [[[] | e |] d1]; try reflexivity.
  simpl in Hsame. destruct fuel'; simpl; rewrite Hsame; reflexivity.
Qed.

(** The error event of the display ends the dispatch: when the object it
    names is in the object table the socket is closed and SystemExit raised;
    when it is not, the message cannot be formatted, KeyError is raised and
    the socket stays open.  Either way the events behind it stay queued. *)
Theorem error_event_ends_dispatch (fuel : nat) (d : Display) (a : addr) (p : proxy)
    (object_id code : Z) (message : string) (rest : list (option event)) :
  event_queue d = Some (a, 0, [VInt object_id; VInt code; VStr message]) :: rest ->
  heap d !! a = Some p -> cls p = Display_class ->
  dispatch_pending (S fuel) d
  = if objects d !! object_id is Some _
    then (Raise SystemExit,
          set_connection (sock_close (connection d)) (set_event_queue rest d))
    else (Raise KeyError, set_event_queue rest d).
Proof.
  intros Hq Hheap Hcls. simpl. rewrite Hq.
  unfold bind, call_handler, deref, get, bind. simpl. rewrite Hheap. simpl.
  rewrite Hcls. simpl. unfold handle_error, bind, get, disconnect, modify, raise.
  simpl. destruct (objects d !! object_id); reflexivity.
Qed.

(** The decoder of the registry on a global event as the server writes it:
    it takes the name, the interface without its terminating zero, and the
    version from the last four bytes. *)
Theorem registry_decodes_global (self : addr) (name version : Z)
    (interface padding : bytes) (s : string) (d : Display) :
  utf8_decode interface = Some s ->
  0 <= name < 2 ^ 32 -> 0 <= version < 2 ^ 32 -> len interface + 1 < 2 ^ 32 ->
  Registry_unpack_event utf8_decode self 0
    (global_payload name interface padding version) d
  = (Ok (Some (self, 0, [VInt name; VStr s; VInt version])), d).
Proof.
  intros Hutf Hname Hversion Hlen.
  pose proof (len_nonneg interface) as Hpos.
  unfold Registry_unpack_event, global_payload.
  destruct (decide (0 = 0)); [| congruence].
  assert (H8 : slice 0 8 (le_bytes 4 name ++ le_bytes 4 (len interface + 1)
                          ++ interface ++ x00 :: padding ++ le_bytes 4 version)
               = le_bytes 4 name ++ le_bytes 4 (len interface + 1)) by reflexivity.
  rewrite H8. unfold unpack_II.
  destruct (decide (length (le_bytes 4 name ++ le_bytes 4 (len interface + 1)) = 8%nat));
    [| contradiction n; reflexivity].
  change (take 4 (le_bytes 4 name ++ le_bytes 4 (len interface + 1)))
    with (le_bytes 4 name).
  change (drop 4 (le_bytes 4 name ++ le_bytes 4 (len interface + 1)))
    with (le_bytes 4 (len interface + 1)).
  rewrite !le_uint_le_bytes_4 by lia.
  assert (Hi : slice 8 (7 + (len interface + 1))
                 (le_bytes 4 name ++ le_bytes 4 (len interface + 1)
                  ++ interface ++ x00 :: padding ++ le_bytes 4 version)
               = interface).
  { unfold slice. change (Z.to_nat 8) with 8%nat.
    change (drop 8 (le_bytes 4 name ++ le_bytes 4 (len interface + 1)
                    ++ interface ++ x00 :: padding ++ le_bytes 4 version))
      with (interface ++ x00 :: padding ++ le_bytes 4 version).
    apply take_app_length'. unfold len. lia. }
  rewrite Hi, Hutf.
  assert (Hv : slice_last 4
                 (le_bytes 4 name ++ le_bytes 4 (len interface + 1)
                  ++ interface ++ x00 :: padding ++ le_bytes 4 version)
               = le_bytes 4 version).
  { unfold slice_last.
    replace (le_bytes 4 name ++ le_bytes 4 (len interface + 1)
             ++ interface ++ x00 :: padding ++ le_bytes 4 version)
      with ((le_bytes 4 name ++ le_bytes 4 (len interface + 1)
             ++ interface ++ x00 :: padding) ++ le_bytes 4 version).
    2: { rewrite <- !app_assoc. reflexivity. }
    apply drop_app_length'. rewrite length_app. simpl. lia. }
  rewrite Hv. unfold unpack_I.
  destruct (decide (length (le_bytes 4 version) = 4%nat)); [| contradiction n; reflexivity].
  rewrite le_uint_le_bytes_4 by lia. reflexivity.
Qed.

(** The decoder of the display on an error event as the server writes it:
    it takes the object, the code, and the message without its terminating
    zero. *)
Theorem display_decodes_error (self : addr) (object_id code : Z)
    (message padding : bytes) (s : string) (d : Display) :
  utf8_decode message = Some s ->
  0 <= object_id < 2 ^ 32 -> 0 <= code < 2 ^ 32 -> len message + 1 < 2 ^ 32 ->
  Display_unpack_event utf8_decode self 0
    (error_payload object_id code message padding) d
  = (Ok (Some (self, 0, [VInt object_id; VInt code; VStr s])), d).
Proof.
  intros Hutf Hobj Hcode Hlen.
  pose proof (len_nonneg message) as Hpos.
  unfold Display_unpack_event, error_payload.
  destruct (decide (0 = 0)); [| congruence].
  assert (H12 : slice 0 12 (le_bytes 4 object_id ++ le_bytes 4 code
                            ++ le_bytes 4 (len message + 1) ++ message ++ x00 :: padding)
                = le_bytes 4 object_id ++ le_bytes 4 code
                  ++ le_bytes 4 (len message + 1)) by reflexivity.
  rewrite H12. unfold unpack_III.
  destruct (decide (length (le_bytes 4 object_id ++ le_bytes 4 code
                            ++ le_bytes 4 (len message + 1)) = 12%nat));
    [| contradiction n; reflexivity].
  change (take 4 (le_bytes 4 object_id ++ le_bytes 4 code
                  ++ le_bytes 4 (len message + 1)))
    with (le_bytes 4 object_id).
  change (take 4 (drop 4 (le_bytes 4 object_id ++ le_bytes 4 code
                          ++ le_bytes 4 (len message + 1))))
    with (le_bytes 4 code).
  change (drop 8 (le_bytes 4 object_id ++ le_bytes 4 code
                  ++ le_bytes 4 (len message + 1)))
    with (le_bytes 4 (len message + 1)).
  rewrite !le_uint_le_bytes_4 by lia.
  assert (Hm : slice 12 (len message + 1 + 11)
                 (le_bytes 4 object_id ++ le_bytes 4 code
                  ++ le_bytes 4 (len message + 1) ++ message ++ x00 :: padding)
               = message).
  { unfold slice. change (Z.to_nat 12) with 12%nat.
    change (drop 12 (le_bytes 4 object_id ++ le_bytes 4 code
                     ++ le_bytes 4 (len message + 1) ++ message ++ x00 :: padding))
      with (message ++ x00 :: padding).
    apply take_app_length'. unfold len. lia. }
  rewrite Hm, Hutf. reflexivity.
Qed.

End Dispatching.

Lemma unknown_opcode_breaks_dispatch_witness :
  decode Sample.utf8_decode Sample.unpack_other 1 (Sample.frame 1 5 []) (Sample.fresh ∅)
  = (Ok tt, set_previous_data [] (set_event_queue [None] (Sample.fresh ∅)))
  /\ (let* _ := decode Sample.utf8_decode Sample.unpack_other 1 (Sample.frame 1 5 []) in
      dispatch_pending Sample.pack_arguments Sample.remove_obj Sample.handle_other 1)
       (Sample.fresh ∅)
     = (Raise TypeError, set_previous_data [] (set_event_queue [] (Sample.fresh ∅))).
Proof.
  apply (unknown_opcode_breaks_dispatch Sample.pack_arguments Sample.utf8_decode
           Sample.remove_obj Sample.unpack_other Sample.handle_other
           0 0 (Sample.frame 1 5 []) (Sample.fresh ∅) 0%nat (new_proxy Display_class 1)).
  - reflexivity.
  - reflexivity.
  - vm_compute. discriminate.
  - reflexivity.
  - vm_compute. inversion 1.
  - reflexivity.
  - reflexivity.
  - left. reflexivity.
  - vm_compute. discriminate.
  - vm_compute. discriminate.
Defined.

Lemma delete_id_frame_reaches_handler_witness :
  (let* _ := decode Sample.utf8_decode Sample.unpack_other 1
               (Sample.frame 1 1 (le_bytes 4 7)) in
   dispatch_pending Sample.pack_arguments Sample.remove_obj Sample.handle_other 1)
    (Sample.fresh ∅)
  = handle_delete_id (le_uint (drop 8 (Sample.frame 1 1 (le_bytes 4 7))))
      (set_previous_data [] (set_event_queue [] (Sample.fresh ∅))).
Proof.
  apply (delete_id_frame_reaches_handler Sample.pack_arguments Sample.utf8_decode
           Sample.remove_obj Sample.unpack_other Sample.handle_other
           0 0 (Sample.frame 1 1 (le_bytes 4 7)) (Sample.fresh ∅) 0%nat
           (new_proxy Display_class 1)).
  - reflexivity.
  - reflexivity.
  - reflexivity.
  - reflexivity.
  - reflexivity.
  - vm_compute. inversion 1.
  - reflexivity.
  - reflexivity.
  - reflexivity.
Defined.

Lemma error_event_ends_dispatch_witness :
  let d := set_event_queue [Some (0%nat, 0, [VInt 1; VInt 0; VStr "no memory"]); None]
             (Sample.fresh ∅) in
  dispatch_pending Sample.pack_arguments Sample.remove_obj Sample.handle_other 1 d
  = if objects d !! 1 is Some _
    then (Raise SystemExit,
          set_connection (sock_close (connection d)) (set_event_queue [None] d))
    else (Raise KeyError, set_event_queue [None] d).
Proof.
  apply (error_event_ends_dispatch Sample.pack_arguments Sample.remove_obj
           Sample.handle_other 0
           (set_event_queue [Some (0%nat, 0, [VInt 1; VInt 0; VStr "no memory"]); None]
              (Sample.fresh ∅))
           0%nat (new_proxy Display_class 1) 1 0 "no memory" [None]).
  - reflexivity.
  - reflexivity.
  - reflexivity.
Defined.

Lemma registry_decodes_global_witness :
  Registry_unpack_event Sample.utf8_decode 1%nat 0
    (global_payload 3 (String.list_byte_of_string "wl_shm") [x00] 1) (Sample.fresh ∅)
  = (Ok (Some (1%nat, 0, [VInt 3; VStr "wl_shm"; VInt 1])), Sample.fresh ∅).
Proof.
  apply (registry_decodes_global Sample.utf8_decode 1%nat 3 1
           (String.list_byte_of_string "wl_shm") [x00] "wl_shm" (Sample.fresh ∅)).
  - reflexivity.
  - lia.
  - lia.
  - vm_compute. reflexivity.
Defined.

Lemma display_decodes_error_witness :
  Display_unpack_event Sample.utf8_decode 0%nat 0
    (error_payload 1 2 (String.list_byte_of_string "no memory") [x00; x00])
    (Sample.fresh ∅)
  = (Ok (Some (0%nat, 0, [VInt 1; VInt 2; VStr "no memory"])), Sample.fresh ∅).
Proof.
  apply (display_decodes_error Sample.utf8_decode 0%nat 1 2
           (String.list_byte_of_string "no memory") [x00; x00] "no memory"
           (Sample.fresh ∅)).
  - reflexivity.
  - lia.
  - lia.
  - vm_compute. reflexivity.
Defined.

(** ** More on sending *)

(** When [flush] returns with the queue empty, the wire has got every entry
    of the queue whole and in the order of the queue, the descriptors of an
    entry with its first segment and with no other. *)
Theorem flush_drains_in_order (fuel : nat) (d d' : Display) :
  flush fuel d = (Ok tt, d') -> out_queue d' = [] ->
  exists segs,
    wire (connection d') = wire (connection d) ++ segs
    /\ transmits_all (out_queue d) segs.
Proof.
  intros H Hempty. apply flush_spec in H.
  destruct H as (done & pending & sd & sh & used & Hsplit & Hw & _ & Hall & Hq & Hcase).
  rewrite Hempty in Hq. subst pending.
  destruct Hcase as [(_ & -> & _) | (A & rest & acc & Hp & _)]; [| discriminate].
  exists sd. rewrite !app_nil_r in *. rewrite Hsplit. auto.
Qed.

Lemma flush_drains_in_order_witness :
  let d := set_connection
             {| to_send := [Accepts 5; Accepts 20; Accepts 12];
                to_recv := []; wire := []; closed := false |} congested in
  exists segs,
    wire (connection (flush 4 d).2) = wire (connection d) ++ segs
    /\ transmits_all (out_queue d) segs.
Proof.
  apply (flush_drains_in_order 4
           (set_connection
              {| to_send := [Accepts 5; Accepts 20; Accepts 12];
                 to_recv := []; wire := []; closed := false |} congested)).
  - vm_compute. reflexivity.
  - vm_compute. reflexivity.
Defined.

(** On a socket that takes each entry of the queue whole in one call,
    [flush] returns with the queue empty after one call of [sendmsg] for
    each entry: the wire has got one segment for each entry, the entry
    itself, in the order of the queue, and the replies of the socket that
    follow are not consumed. *)
Theorem flush_sends_whole_entries (d : Display) (ks : list nat)
    (later : list send_reply) :
  Forall2 (fun entry k => (length entry.1 <= k)%nat) (out_queue d) ks ->
  to_send (connection d) = map Accepts ks ++ later ->
  exists d',
    flush (length (out_queue d)) d = (Ok tt, d')
    /\ out_queue d' = []
    /\ wire (connection d') = wire (connection d) ++ out_queue d
    /\ to_send (connection d') = later.
Proof.
  remember (out_queue d) as q eqn:Hq. intros Hall. revert d Hq.
  induction Hall as [| [data fds] k rest ks Hk Hall IH]; intros d Hq Hs.
  - exists d. simpl. rewrite <- Hq. rewrite app_nil_r. auto.
  - simpl in Hs, Hk. symmetry in Hq.
    cbn [length]. rewrite (flush_whole_entry _ d data fds rest k _ Hq Hs Hk).
    destruct (IH (set_connection
                    {| to_send := map Accepts ks ++ later;
                       to_recv := to_recv (connection d);
                       wire := wire (connection d) ++ [(data, fds)];
                       closed := closed (connection d) |}
                    (set_out_queue rest d)))
      as (d' & Hrun & Hempty & Hwire & Hlater).
    + destruct d. reflexivity.
    + destruct d. reflexivity.
    + exists d'. split; [exact Hrun |]. split; [exact Hempty |].
      split; [| exact Hlater].
      rewrite Hwire. destruct d. simpl. rewrite <- app_assoc. reflexivity.
Qed.

Lemma flush_sends_whole_entries_witness :
  let d := set_connection
             {| to_send := [Accepts 12; Accepts 100; SendError 32];
                to_recv := []; wire := []; closed := false |} congested in
  exists d',
    flush (length (out_queue d)) d = (Ok tt, d')
    /\ out_queue d' = []
    /\ wire (connection d') = wire (connection d) ++ out_queue d
    /\ to_send (connection d') = [SendError 32].
Proof.
  apply (flush_sends_whole_entries
           (set_connection
              {| to_send := [Accepts 12; Accepts 100; SendError 32];
                 to_recv := []; wire := []; closed := false |} congested)
           [12%nat; 100%nat] [SendError 32]).
  - vm_compute. repeat constructor.
  - reflexivity.
Defined.

Lemma flush_raises (fuel : nat) : forall (d d' : Display) (e : exn),
  flush fuel d = (Raise e, d') ->
  exists errno, e = OSError (Some errno) /\ errno <> 11.
Proof.
  induction fuel as [|fuel IH]; intros d d' e H; simpl in H.
  - destruct (out_queue d) as [|[data fds] rest]; discriminate.
  - destruct (out_queue d) as [|[data fds] rest]; [discriminate |].
    destruct ((let* sent := sendmsg data fds in send_rest fuel data sent)
                (set_out_queue rest d)) as [o1 d1] eqn:A.
    apply attempt_spec in A. destruct A as (segs & used & _ & _ & _ & _ & Ho).
    destruct o1 as [[] | e1 |]; [eapply IH; eassumption | | discriminate].
    destruct Ho as (errno & acc & -> & _).
    destruct (decide (OSError (Some errno) = OSError (Some 11))) as [Heq | Hne];
      [discriminate |].
    injection H as <- _. exists errno. split; [reflexivity | congruence].
Qed.

(** When [flush] raises, the error is a socket error other than
    would-block, and the entry that was being sent is gone from the queue
    with the entries before it: the queue holds the entries behind it. *)
Theorem flush_error_drops_entry (fuel : nat) (d d' : Display) (e : exn) :
  flush fuel d = (Raise e, d') ->
  (exists errno, e = OSError (Some errno) /\ errno <> 11)
  /\ exists done A, out_queue d = done ++ A :: out_queue d'.
Proof.
  intros H. split; [eapply flush_raises; eassumption |].
  apply flush_spec in H.
  destruct H as (done & pending & sd & sh & used & Hsplit & _ & _ & _ & A & rest & -> & -> & _).
  eauto.
Qed.

Lemma flush_error_drops_entry_witness :
  let d := set_connection
             {| to_send := [Accepts 3; SendError 32];
                to_recv := []; wire := []; closed := false |} congested in
  (exists errno, OSError (Some 32) = OSError (Some errno) /\ errno <> 11)
  /\ exists done A, out_queue d = done ++ A :: out_queue (flush 4 d).2.
Proof.
  apply (flush_error_drops_entry 4
           (set_connection
              {| to_send := [Accepts 3; SendError 32];
                 to_recv := []; wire := []; closed := false |} congested)).
  vm_compute. reflexivity.
Defined.

(** ** Errors of the receiving side *)

(** A socket error on receive: the would-block error is absorbed and [recv]
    returns; any other is raised to the caller.  Nothing but the socket
    changes. *)
Theorem recv_absorbs_would_block_only
    (utf8_decode : bytes -> option string)
    (unpack_other : pyclass -> addr -> Z -> bytes -> view -> outcome (option event) * view)
    (fuel : nat) (d : Display) (errno : Z) (later : list recv_reply) :
  to_recv (connection d) = RecvError errno :: later ->
  exists s,
    to_recv s = later /\ to_send s = to_send (connection d)
    /\ wire s = wire (connection d)
    /\ recv utf8_decode unpack_other fuel d
       = (if decide (errno = 11) then Ok tt else Raise (OSError (Some errno)),
          set_connection s d).
Proof.
  intros Hrecv. eexists. split; [| split; [| split]];
    [| | | unfold recv, try_except, bind, recvmsg, on_connection, sock_recv;
           rewrite Hrecv; simpl;
           destruct (decide (Some errno = Some 11)) as [Heq | Hne];
           destruct (decide (errno = 11)) as [Heq' | Hne'];
           try congruence; reflexivity];
    reflexivity.
Qed.

Lemma recv_absorbs_would_block_only_witness :
  let d := set_connection
             {| to_send := []; to_recv := [RecvError 104; RecvError 11];
                wire := []; closed := false |} (Sample.fresh ∅) in
  exists s,
    to_recv s = [RecvError 11] /\ to_send s = to_send (connection d)
    /\ wire s = wire (connection d)
    /\ recv Sample.utf8_decode Sample.unpack_other 1 d
       = (if decide (104 = 11) then Ok tt else Raise (OSError (Some 104)),
          set_connection s d).
Proof.
  apply (recv_absorbs_would_block_only Sample.utf8_decode Sample.unpack_other 1
           (set_connection
              {| to_send := []; to_recv := [RecvError 104; RecvError 11];
                 wire := []; closed := false |} (Sample.fresh ∅))
           104 [RecvError 11]).
  reflexivity.
Defined.

(** ** The life of an object after [destroy] *)

Section Lifecycle.

Variable pack_arguments : proxy -> Z -> list value -> bytes.
Variable utf8_decode : bytes -> option string.
Variable unpack_other : pyclass -> addr -> Z -> bytes -> view -> outcome (option event) * view.

Local Abbreviation decode_loop := (decode_loop utf8_decode unpack_other).

(** [destroy] queues one request and fences the id.  When the server has
    acknowledged the deletion the id is out of the object table and still in
    the dead list: a frame that names it afterwards is skipped like a frame
    that came before the acknowledgment, and raises nothing. *)
Theorem destroyed_id_stays_fenced (destroy : M unit) (self : addr) (p : proxy)
    (a : addr) (d : Display) :
  destroy ∈ [Region_destroy pack_arguments self; ShmPool_destroy pack_arguments self] ->
  heap d !! self = Some p -> objects d !! obj_id p = Some a ->
  exists d1 d2,
    destroy d = (Ok tt, d1)
    /\ dead_objects d1 = dead_objects d ++ [obj_id p]
    /\ objects d1 = objects d
    /\ length (out_queue d1) = S (length (out_queue d))
    /\ handle_delete_id (obj_id p) d1 = (Ok tt, d2)
    /\ objects d2 = delete (obj_id p) (objects d)
    /\ obj_id p ∈ dead_objects d2
    /\ forall fuel data,
         8 <= len data -> header_size data <= len data ->
         header_id data = obj_id p ->
         decode_loop (S fuel) data d2
         = decode_loop fuel (slice_from (header_size data) data) d2.
Proof.
  intros Hin Hself Hlive.
  assert (Hd1 : exists op, destroy d
                = (Ok tt, set_dead_objects (dead_objects d ++ [obj_id p])
                            (set_out_queue (out_queue d ++ [(pack_arguments p op [], [])]) d))).
  { rewrite !elem_of_cons in Hin.
    destruct Hin as [-> | [-> | Hin]]; [| | apply elem_of_nil in Hin; contradiction].
    - exists 0. unfold Region_destroy, enqueue, bind, deref, get, modify, remove_object.
      simpl. rewrite Hself. reflexivity.
    - exists 1. unfold ShmPool_destroy, enqueue, bind, deref, get, modify, remove_object.
      simpl. rewrite Hself. reflexivity. }
  destruct Hd1 as (op & Hd1).
  set (d1 := set_dead_objects (dead_objects d ++ [obj_id p])
               (set_out_queue (out_queue d ++ [(pack_arguments p op [], [])]) d)) in *.
  destruct (handle_delete_id_acknowledges (obj_id p) a d1 Hlive) as (dead & Hack & Hperm).
  exists d1, (set_objects (delete (obj_id p) (objects d1)) (set_dead_objects dead d1)).
  assert (Hdead : obj_id p ∈ dead).
  { rewrite Hperm. simpl. apply elem_of_app. right. left. }
  split; [assumption |]. split; [reflexivity |]. split; [reflexivity |].
  split; [simpl; rewrite length_app; simpl; lia |].
  split; [assumption |]. split; [reflexivity |]. split; [assumption |].
  intros fuel data H8 Hsize Hid.
  apply (decode_loop_dead utf8_decode unpack_other); try assumption.
  rewrite Hid. assumption.
Qed.

End Lifecycle.

Lemma destroyed_id_stays_fenced_witness :
  let d := set_dead_objects [] pending_delete in
  exists d1 d2,
    Region_destroy Sample.pack_arguments 1%nat d = (Ok tt, d1)
    /\ dead_objects d1 = dead_objects d ++ [obj_id (new_proxy (Other_class 0) 2)]
    /\ objects d1 = objects d
    /\ length (out_queue d1) = S (length (out_queue d))
    /\ handle_delete_id (obj_id (new_proxy (Other_class 0) 2)) d1 = (Ok tt, d2)
    /\ objects d2 = delete (obj_id (new_proxy (Other_class 0) 2)) (objects d)
    /\ obj_id (new_proxy (Other_class 0) 2) ∈ dead_objects d2
    /\ forall fuel data,
         8 <= len data -> header_size data <= len data ->
         header_id data = obj_id (new_proxy (Other_class 0) 2) ->
         decode_loop Sample.utf8_decode Sample.unpack_other (S fuel) data d2
         = decode_loop Sample.utf8_decode Sample.unpack_other fuel
             (slice_from (header_size data) data) d2.
Proof.
  apply (destroyed_id_stays_fenced Sample.pack_arguments Sample.utf8_decode
           Sample.unpack_other (Region_destroy Sample.pack_arguments 1%nat) 1%nat
           (new_proxy (Other_class 0) 2) 1%nat (set_dead_objects [] pending_delete)).
  - left.
  - reflexivity.
  - reflexivity.
Defined.

(** ** Descriptors *)

(** [create_pool] queues its request with the descriptor; when the queue
    was empty and the socket takes the request whole, [flush] puts one
    segment on the wire, the request with the descriptor on it, and leaves
    the queue empty. *)
Theorem create_pool_sends_descriptor
    (pack_arguments : proxy -> Z -> list value -> bytes)
    (fuel : nat) (self : addr) (fd size : Z) (d : Display) (p : proxy)
    (k : nat) (sends : list send_reply) :
  open_ids d = [] -> ids d < 0xffffffff ->
  heap d !! self = Some p -> out_queue d = [] ->
  to_send (connection d) = Accepts k :: sends ->
  (length (pack_arguments p 0%Z [VInt (ids d); VInt size]) <= k)%nat ->
  exists d',
    (let* _ := Shm_create_pool pack_arguments self fd size in flush (S fuel)) d
    = (Ok tt, d')
    /\ out_queue d' = []
    /\ wire (connection d')
       = wire (connection d) ++ [(pack_arguments p 0 [VInt (ids d); VInt size], [fd])]
    /\ to_send (connection d') = sends
    /\ objects d' !! ids d = Some (length (heap d)).
Proof.
  intros Hfree Hlt Hself Hq Hsend Hk.
  assert (Hself' : (heap d ++ [new_proxy ShmPool_class (ids d)]) !! self = Some p).
  { rewrite lookup_app_l; [assumption |]. eapply lookup_lt_Some. eassumption. }
  unfold bind at 1.
  unfold Shm_create_pool, enqueue_with, bind, alloc, modify, deref, get, ret.
  rewrite next_id_counter by assumption. simpl.
  rewrite Hself', Hq. simpl.
  unfold bind, sendmsg, on_connection, sock_send. simpl. rewrite Hsend. simpl.
  rewrite (take_ge _ k Hk).
  set (request := pack_arguments p 0 [VInt (ids d); VInt size]).
  assert (Hdone : (len request <? len request) = false) by (apply Z.ltb_ge; lia).
  eexists. split; [destruct fuel; simpl; rewrite Hdone; reflexivity |].
  simpl. split; [reflexivity |]. split; [reflexivity |]. split; [reflexivity |].
  apply lookup_insert_eq.
Qed.

Lemma create_pool_sends_descriptor_witness :
  let d := set_connection
             {| to_send := [Accepts 16]; to_recv := []; wire := []; closed := false |}
             (Sample.fresh ∅) in
  exists d',
    (let* _ := Shm_create_pool Sample.pack_arguments 0%nat 7 4096 in flush 1) d
    = (Ok tt, d')
    /\ out_queue d' = []
    /\ wire (connection d')
       = wire (connection d)
         ++ [(Sample.pack_arguments (new_proxy Display_class 1) 0
                [VInt (ids d); VInt 4096], [7])]
    /\ to_send (connection d') = []
    /\ objects d' !! ids d = Some (length (heap d)).
Proof.
  apply (create_pool_sends_descriptor Sample.pack_arguments 0 0%nat 7 4096
           (set_connection
              {| to_send := [Accepts 16]; to_recv := []; wire := []; closed := false |}
              (Sample.fresh ∅))
           (new_proxy Display_class 1) 16 []).
  - reflexivity.
  - simpl. lia.
  - reflexivity.
  - reflexivity.
  - reflexivity.
  - vm_compute. lia.
Defined.

(** ** The template table *)

Lemma templates_of_app (l1 l2 : list pyclass) : forall acc,
  templates_of (l1 ++ l2) acc
  = match templates_of l1 acc with
    | Some t => templates_of l2 t
    | None => None
    end.
Proof.
  induction l1 as [|c l1 IH]; intros acc; simpl; [reflexivity |].
  destruct (class_interface c); [apply IH | reflexivity].
Qed.

Lemma templates_of_total (l : list pyclass) : forall acc,
  Forall (fun k => is_Some (class_interface k)) l ->
  exists t, templates_of l acc = Some t.
Proof.
  induction l as [|c l IH]; intros acc Hall; simpl; [eauto |].
  inversion Hall as [| ? ? [i Hi] Hrest]; subst. rewrite Hi. apply IH. assumption.
Qed.

Lemma templates_of_keeps (i : string) (l : list pyclass) : forall acc t,
  Forall (fun k => class_interface k <> Some i) l ->
  templates_of l acc = Some t -> t !! i = acc !! i.
Proof.
  induction l as [|c l IH]; intros acc t Hall H; simpl in H.
  - injection H as <-. reflexivity.
  - inversion Hall as [| ? ? Hc Hrest]; subst.
    destruct (class_interface c) as [j|] eqn:E; [| discriminate].
    rewrite (IH _ _ Hrest H). apply lookup_insert_ne. congruence.
Qed.

(** In the table of templates, an interface name stands for the last class
    of the tuple that has it: a custom class with the interface of a known
    global takes its place. *)
Theorem templates_of_last_wins (before after : list pyclass) (c : pyclass)
    (i : string) (acc : gmap string pyclass) :
  class_interface c = Some i ->
  Forall (fun k => is_Some (class_interface k)) (before ++ after) ->
  Forall (fun k => class_interface k <> Some i) after ->
  exists t, templates_of (before ++ c :: after) acc = Some t /\ t !! i = Some c.
Proof.
  intros Hc Hall Hafter. apply Forall_app in Hall as [Hb Ha].
  destruct (templates_of_total before acc Hb) as (t1 & H1).
  destruct (templates_of_total after (<[i := c]> t1) Ha) as (t & H2).
  exists t. split.
  - rewrite templates_of_app, H1. simpl. rewrite Hc. assumption.
  - rewrite (templates_of_keeps i after _ t Hafter H2). apply lookup_insert_eq.
Qed.

Lemma templates_of_last_wins_witness :
  exists t,
    templates_of (known_globals ++ Global_class "wl_shm" 99 :: [Global_class "wl_extra" 100]) ∅
    = Some t
    /\ t !! "wl_shm" = Some (Global_class "wl_shm" 99).
Proof.
  apply (templates_of_last_wins known_globals [Global_class "wl_extra" 100]
           (Global_class "wl_shm" 99) "wl_shm" ∅).
  - reflexivity.
  - repeat constructor; simpl; eauto.
  - repeat constructor. simpl. discriminate.
Defined.
